(** * X509Bundle: the trusted-certificate bundle of bell (main/io/X509Bundle.cpp)

    A shallow embedding of the bundle loader ([init]), of the peer
    verification hook ([crtVerifyCallback]) with its binary search, and of
    the signature check ([crtCheckCertificate]), followed by the properties
    proved about them.

    Conventions of the embedding.
    - [uint8_t] is [byte]; [u8] gives its value in [0, 256).
    - The file-level statics ([bundleBytes], [s_should_verify_certs],
      [s_crt_bundle]) form the record [globals], threaded through every
      operation.
    - A pointer into [bundleBytes] is its offset from [bundleBytes.data()].
      The table [s_crt_bundle.crts] therefore holds offsets into whatever
      [bundleBytes] currently contains: the aliasing between the table and the
      byte vector is kept, nothing is copied per entry.
    - [std::runtime_error] thrown by [init] is the [Some e] of its result.
    - A read outside a buffer is undefined in C++; the verification hook
      returns [Fail OutOfBounds] there.
    - mbedTLS is consumed, not implemented: its constants and primitives are
      the fields of the class [mbedtls]; the calls made to it are recorded in
      a call log. [BELL_LOG] lines are not modelled. *)

From Stdlib Require Import ZArith List Bool Lia.
From Stdlib Require Import Strings.Byte Sorting.Sorted.
Import ListNotations.
Local Open Scope Z_scope.

(** ** Bytes and buffers *)

Definition u8 (b : byte) : Z := Z.of_N (Byte.to_N b).

(** [hi << 8 | lo] on two [uint8_t] promoted to [int]. *)
Definition be16 (hi lo : byte) : Z := Z.lor (Z.shiftl (u8 hi) 8) (u8 lo).

(** Unchecked indexing [buf[i]], used where the source has already
    established [i < size]. *)
Definition idx (buf : list byte) (i : Z) : byte := nth (Z.to_nat i) buf x00.

(** ** Faults of the model and the result monad of the verification hook *)

Inductive fault : Type :=
| OutOfBounds   (* a read outside the buffer a pointer belongs to *)
| OutOfFuel.    (* the loop bound of the model was reached *)

Inductive result (A : Type) : Type :=
| Ok (a : A)
| Fail (f : fault).
Arguments Ok {A} a.
Arguments Fail {A} f.

Definition bind {A B : Type} (m : result A) (k : A -> result B) : result B :=
  match m with
  | Ok a => k a
  | Fail f => Fail f
  end.

Notation "x <- m ;; k" := (bind m (fun x => k))
  (at level 61, m at next level, right associativity).
Notation "' pat <- m ;; k" := (bind m (fun x => match x with pat => k end))
  (at level 61, pat pattern, m at next level, right associativity).

(** Checked reads: [buf[i]], a pointer [buf + off] seen as the bytes readable
    from it, and the big-endian 16-bit load [q[0] << 8 | q[1]]. *)
Definition byte_at (buf : list byte) (i : Z) : result byte :=
  if i <? 0 then Fail OutOfBounds
  else match nth_error buf (Z.to_nat i) with
       | Some b => Ok b
       | None => Fail OutOfBounds
       end.

Definition mem_from (buf : list byte) (off : Z) : list byte :=
  if off <? 0 then [] else skipn (Z.to_nat off) buf.

Definition load_be16 (buf : list byte) (off : Z) : result Z :=
  hi <- byte_at buf off ;;
  lo <- byte_at buf (off + 1) ;;
  Ok (be16 hi lo).

(** [len] bytes starting at [buf + off], as handed to a callee that reads
    them all. *)
Definition slice (buf : list byte) (off len : Z) : result (list byte) :=
  if (off <? 0) || (len <? 0) || (Z.of_nat (length buf) <? off + len)
  then Fail OutOfBounds
  else Ok (firstn (Z.to_nat len) (skipn (Z.to_nat off) buf)).

(** [memcmp(s1, s2, n)]: the bytes are compared in order as [unsigned char]
    and the first difference decides; only the sign of the result is
    specified by C. Running off the end of either buffer before a difference
    is found is a read out of bounds. *)
Fixpoint memcmp (s1 s2 : list byte) (n : nat) {struct n} : result Z :=
  match n with
  | O => Ok 0
  | S n' =>
      match s1, s2 with
      | a :: s1', b :: s2' =>
          if u8 a =? u8 b then memcmp s1' s2' n' else Ok (u8 a - u8 b)
      | _, _ => Fail OutOfBounds
      end
  end.

(** ** The statics of X509Bundle.cpp *)

Definition CRT_HEADER_OFFSET : Z := 4.
Definition BUNDLE_HEADER_OFFSET : Z := 2.

(** [crts] is [NULL] ([None]) or the table of entry pointers, each an offset
    into [bundleBytes]. *)
Record crt_bundle_t : Type := {
  crts : option (list Z);
  num_certs : Z;
  x509_crt_bundle_len : Z
}.

Record globals : Type := {
  bundleBytes : list byte;
  s_should_verify_certs : bool;
  s_crt_bundle : crt_bundle_t
}.

(** Static storage is zero-initialised. *)
Definition globals0 : globals :=
  {| bundleBytes := [];
     s_should_verify_certs := false;
     s_crt_bundle := {| crts := None; num_certs := 0; x509_crt_bundle_len := 0 |} |}.

(** ** init *)

(** The two [std::runtime_error]s of [init]: "Invalid certificate bundle"
    (the spec's InvalidBundle) and "Unable to allocate memory for bundle"
    (the spec's AllocationFailure). *)
Inductive runtime_error : Type :=
| InvalidBundle
| AllocationFailure.

(** The [for] loop of [init], with [n = num_certs - i] iterations left.
    [None] is the throw inside the loop; otherwise the slots written to
    [crts] from index [i] on and the final [cur_crt]. *)
Fixpoint init_loop (bytes : list byte) (bundle_end : Z) (n : nat) (cur_crt : Z)
  : option (list Z * Z) :=
  match n with
  | O => Some ([], cur_crt)
  | S n' =>
      (* crts[i] = cur_crt *)
      if cur_crt + CRT_HEADER_OFFSET >? bundle_end then None
      else
        let name_len := be16 (idx bytes cur_crt) (idx bytes (cur_crt + 1)) in
        let key_len := be16 (idx bytes (cur_crt + 2)) (idx bytes (cur_crt + 3)) in
        match init_loop bytes bundle_end n'
                (cur_crt + CRT_HEADER_OFFSET + name_len + key_len) with
        | Some (rest, last) => Some (cur_crt :: rest, last)
        | None => None
        end
  end.

(** [init(x509_bundle, bundle_size)], where [calloc_ok] tells whether
    [calloc] returned a non-null table. *)
Definition init (calloc_ok : bool) (x509_bundle : list byte) (g : globals)
  : globals * option runtime_error :=
  let bundle_size := Z.of_nat (length x509_bundle) in
  if bundle_size <? BUNDLE_HEADER_OFFSET + CRT_HEADER_OFFSET then
    (g, Some InvalidBundle)
  else
    (* uint16_t num_certs = (x509_bundle[0] << 8) | x509_bundle[1] *)
    let n := (be16 (idx x509_bundle 0) (idx x509_bundle 1)) mod 65536 in
    if negb calloc_ok then (g, Some AllocationFailure)
    else
      (* bundleBytes.resize(bundle_size); memcpy(bundleBytes.data(), ...) *)
      let g1 := {| bundleBytes := x509_bundle;
                   s_should_verify_certs := s_should_verify_certs g;
                   s_crt_bundle := s_crt_bundle g |} in
      let bundle_end := bundle_size in
      match init_loop (bundleBytes g1) bundle_end (Z.to_nat n)
              BUNDLE_HEADER_OFFSET with
      | None => (g1, Some InvalidBundle)
      | Some (table, cur_crt) =>
          if cur_crt >? bundle_end then (g1, Some InvalidBundle)
          else
            ({| bundleBytes := bundleBytes g1;
                s_should_verify_certs := true;
                s_crt_bundle :=
                  {| crts := Some table;
                     num_certs := n;
                     x509_crt_bundle_len :=
                       x509_crt_bundle_len (s_crt_bundle g1) |} |},
             None)
      end.

Definition shouldVerify (g : globals) : bool := s_should_verify_certs g.

(** ** The mbedTLS interface *)

(** What X509Bundle.cpp takes from <mbedtls/x509.h>, <mbedtls/pk.h> and
    <mbedtls/md.h>: three constants and the primitives called by
    [crtCheckCertificate]. Every primitive returns an [int], 0 for success
    ([mbedtls_pk_can_do] returns a truth value); [mbedtls_md] also yields
    the digest written to [hash]. Enumerations ([mbedtls_pk_type_t],
    [mbedtls_md_type_t]) and the opaque [sig_opts] pointer are integers. *)
Class mbedtls : Type := {
  MBEDTLS_X509_BADCERT_NOT_TRUSTED : Z;
  MBEDTLS_X509_BADCERT_BAD_MD : Z;
  MBEDTLS_ERR_X509_FATAL_ERROR : Z;
  mbedtls_pk_context : Type;
  mbedtls_md_info_t : Type;
  mbedtls_pk_parse_public_key : list byte -> Z * mbedtls_pk_context;
  mbedtls_pk_can_do : mbedtls_pk_context -> Z -> Z;
  mbedtls_md_info_from_type : Z -> mbedtls_md_info_t;
  mbedtls_md : mbedtls_md_info_t -> list byte -> Z * list byte;
  mbedtls_md_get_size : mbedtls_md_info_t -> Z;
  mbedtls_pk_verify_ext :
    Z -> Z -> mbedtls_pk_context -> Z -> list byte -> Z -> list byte -> Z
}.

(** [mbedtls_x509_buf]: [p] is the memory readable from the pointer, of
    which the first [len] bytes are the buffer's content. *)
Record mbedtls_x509_buf : Type := {
  len : Z;
  p : list byte
}.

Definition buf_bytes (b : mbedtls_x509_buf) : list byte :=
  firstn (Z.to_nat (len b)) (p b).

(** The fields of [mbedtls_x509_crt] the file reads ([crt_sig] is the
    member [sig]). *)
Record mbedtls_x509_crt : Type := {
  issuer_raw : mbedtls_x509_buf;
  tbs : mbedtls_x509_buf;
  sig_pk : Z;
  sig_md : Z;
  sig_opts : Z;
  crt_sig : mbedtls_x509_buf
}.

(** The calls into mbedTLS made by the signature check, in order. *)
Inductive mbedtls_call : Type :=
| call_pk_parse_public_key (pub_key : list byte)
| call_pk_can_do (pk_alg : Z)
| call_md (md_alg : Z) (input : list byte)
| call_pk_verify_ext (hash signature : list byte).

Section WithMbedtls.
Context {tls : mbedtls}.

(** ** crtCheckCertificate *)

Definition crtCheckCertificate (child : mbedtls_x509_crt) (pub_key : list byte)
  : Z * list mbedtls_call :=
  let '(ret, parent_pk) := mbedtls_pk_parse_public_key pub_key in
  let log1 := [call_pk_parse_public_key pub_key] in
  if negb (ret =? 0) then (ret, log1)
  else
    (* Fast check to avoid expensive computations when not necessary *)
    let log2 := log1 ++ [call_pk_can_do (sig_pk child)] in
    if mbedtls_pk_can_do parent_pk (sig_pk child) =? 0 then (-1, log2)
    else
      let md_info := mbedtls_md_info_from_type (sig_md child) in
      let '(ret, hash) := mbedtls_md md_info (buf_bytes (tbs child)) in
      let log3 := log2 ++ [call_md (sig_md child) (buf_bytes (tbs child))] in
      if negb (ret =? 0) then (ret, log3)
      else
        let ret :=
          mbedtls_pk_verify_ext (sig_pk child) (sig_opts child) parent_pk
            (sig_md child) hash (mbedtls_md_get_size md_info)
            (buf_bytes (crt_sig child)) in
        (ret, log3 ++ [call_pk_verify_ext hash (buf_bytes (crt_sig child))]).

End WithMbedtls.

(** ** The binary search of crtVerifyCallback *)

(** [crts[i]] on the table. *)
Definition table_at (table : list Z) (i : Z) : result Z :=
  if i <? 0 then Fail OutOfBounds
  else match nth_error table (Z.to_nat i) with
       | Some q => Ok q
       | None => Fail OutOfBounds
       end.

(** One evaluation of the loop body up to [memcmp]: the [name_len] read from
    the candidate and [cmp_res]. The issuer's own [len] is not consulted. *)
Definition compare_candidate (g : globals) (table : list Z)
    (child : mbedtls_x509_crt) (middle : Z) : result (Z * Z) :=
  q <- table_at table middle ;;
  name_len <- load_be16 (bundleBytes g) q ;;
  let crt_name := mem_from (bundleBytes g) (q + CRT_HEADER_OFFSET) in
  cmp_res <- memcmp (p (issuer_raw child)) crt_name (Z.to_nat name_len) ;;
  Ok (name_len, cmp_res).

(** The [while (start <= end)] loop. The result is the triple
    [(crt_found, middle, name_len)] the code holds when the loop is left.
    [start], [end] and [middle] are [int]s between -1 and 65535, so no
    overflow arises; [/] on [int] is [Z.quot]. *)
Fixpoint search_loop (g : globals) (table : list Z) (child : mbedtls_x509_crt)
    (fuel : nat) (start end_ middle name_len : Z) : result (bool * Z * Z) :=
  if start <=? end_ then
    match fuel with
    | O => Fail OutOfFuel
    | S fuel' =>
        '(name_len, cmp_res) <- compare_candidate g table child middle ;;
        if cmp_res =? 0 then Ok (true, middle, name_len)
        else if cmp_res <? 0 then
          let end_ := middle - 1 in
          search_loop g table child fuel' start end_
            (Z.quot (start + end_) 2) name_len
        else
          let start := middle + 1 in
          search_loop g table child fuel' start end_
            (Z.quot (start + end_) 2) name_len
    end
  else Ok (false, middle, name_len).

(** The search as [crtVerifyCallback] starts it. Each iteration removes at
    least the probed slot from the window, so [num_certs] iterations are
    always enough (see [find_crt_fuel]). *)
Definition find_crt (g : globals) (table : list Z) (child : mbedtls_x509_crt)
  : result (bool * Z * Z) :=
  let start := 0 in
  let end_ := num_certs (s_crt_bundle g) - 1 in
  let middle := Z.quot (end_ - start) 2 in
  search_loop g table child (Z.to_nat (num_certs (s_crt_bundle g)))
    start end_ middle 0.

(** The public key of the entry found: [key_len] bytes at
    [crts[middle] + CRT_HEADER_OFFSET + name_len]. *)
Definition found_key (g : globals) (table : list Z) (middle name_len : Z)
  : result (list byte) :=
  q <- table_at table middle ;;
  key_len <- load_be16 (bundleBytes g) (q + 2) ;;
  slice (bundleBytes g) (q + CRT_HEADER_OFFSET + name_len) key_len.

Section Callback.
Context {tls : mbedtls}.

(** ** crtVerifyCallback *)

(** [*flags & ~(MBEDTLS_X509_BADCERT_BAD_MD)] on [uint32_t]: the complement
    of the [int] constant converted to 32 bits unsigned. *)
Definition flags_filtered (flags : Z) : Z :=
  Z.land flags (Z.lnot MBEDTLS_X509_BADCERT_BAD_MD mod 2 ^ 32).

(** [crtVerifyCallback(buf, crt, depth, flags)]: the result is the returned
    [int], the value left in [*flags] and the mbedTLS calls made. [buf] is
    unused by the source and omitted. *)
Definition crtVerifyCallback (g : globals) (crt : mbedtls_x509_crt)
    (depth : Z) (flags : Z) : result (Z * Z * list mbedtls_call) :=
  let child := crt in
  if negb (flags_filtered flags =? MBEDTLS_X509_BADCERT_NOT_TRUSTED) then
    Ok (0, flags, [])
  else
    match crts (s_crt_bundle g) with
    | None => Ok (MBEDTLS_ERR_X509_FATAL_ERROR, flags, [])
    | Some table =>
        '(crt_found, middle, name_len) <- find_crt g table child ;;
        '(ret, calls) <-
          (if crt_found : bool then
             key <- found_key g table middle name_len ;;
             Ok (crtCheckCertificate child key)
           else Ok (MBEDTLS_ERR_X509_FATAL_ERROR, [])) ;;
        if ret =? 0 then Ok (0, 0, calls)
        else Ok (MBEDTLS_ERR_X509_FATAL_ERROR, flags, calls)
    end.

End Callback.

(** ** attach and the operations of the subsystem *)

(** The two settings [attach] writes into the handshake configuration: the
    dummy CA chain and the verification hook. *)
Record mbedtls_ssl_config : Type := {
  ca_chain_is_dummy : bool;
  f_vrfy_is_crtVerifyCallback : bool
}.

Definition attach (g : globals) (conf : mbedtls_ssl_config)
  : globals * mbedtls_ssl_config :=
  (g, {| ca_chain_is_dummy := true; f_vrfy_is_crtVerifyCallback := true |}).

(** The public operations of the namespace, with their arguments. *)
Inductive operation : Type :=
| op_init (calloc_ok : bool) (x509_bundle : list byte)
| op_crtVerifyCallback (crt : mbedtls_x509_crt) (depth flags : Z)
| op_crtCheckCertificate (child : mbedtls_x509_crt) (pub_key : list byte)
| op_attach (conf : mbedtls_ssl_config)
| op_shouldVerify.

(** Effect of one operation on the statics. Only [init] assigns them: the
    hook writes [*flags], the signature check a local certificate, [attach]
    the configuration and the dummy certificate. *)
Definition step (g : globals) (o : operation) : globals :=
  match o with
  | op_init calloc_ok x509_bundle => fst (init calloc_ok x509_bundle g)
  | op_crtVerifyCallback _ _ _ => g
  | op_crtCheckCertificate _ _ => g
  | op_attach conf => fst (attach g conf)
  | op_shouldVerify => g
  end.

Definition run (g : globals) (ops : list operation) : globals :=
  fold_left step ops g.

(** ** The bundle format *)

Definition byte_of (z : Z) : byte :=
  match Byte.of_N (Z.to_N z) with
  | Some b => b
  | None => x00
  end.

(** A 16-bit integer, big-endian. *)
Definition enc16 (n : Z) : list byte := [byte_of (n / 256); byte_of (n mod 256)].

(** Modelled from the spec: the generator of the bundle is not part of the
    sources; this is one entry in the binary format of the spec's section
    on external interfaces: [name_len] and [key_len], 16 bits each and
    big-endian, then the [name_len] bytes of the subject name and the
    [key_len] bytes of the public key. *)
Definition encode_entry (e : list byte * list byte) : list byte :=
  enc16 (Z.of_nat (length (fst e))) ++ enc16 (Z.of_nat (length (snd e)))
    ++ fst e ++ snd e.

(** Modelled from the spec: the generator of the bundle is not part of the
    sources; a bundle is [num_certs] on 16 bits, big-endian, followed by
    its entries, contiguous. *)
Definition encode_bundle (es : list (list byte * list byte)) : list byte :=
  enc16 (Z.of_nat (length es)) ++ concat (map encode_entry es).

(** An entry list the 16-bit fields can express. *)
Definition encodable (es : list (list byte * list byte)) : Prop :=
  Z.of_nat (length es) < 65536 /\
  Forall (fun e => Z.of_nat (length (fst e)) < 65536 /\
                   Z.of_nat (length (snd e)) < 65536) es.

(** Offsets of the entries of [es] when the first one starts at [off]. *)
Fixpoint entry_offsets (off : Z) (es : list (list byte * list byte)) : list Z :=
  match es with
  | [] => []
  | e :: es' =>
      off :: entry_offsets
               (off + CRT_HEADER_OFFSET + Z.of_nat (length (fst e))
                  + Z.of_nat (length (snd e))) es'
  end.

(** Byte-wise lexicographic order on names ([unsigned char] values, a proper
    prefix first), and the prefix relation. *)
Fixpoint lex_compare (a b : list byte) : comparison :=
  match a, b with
  | [], [] => Eq
  | [], _ :: _ => Lt
  | _ :: _, [] => Gt
  | x :: a', y :: b' =>
      match u8 x ?= u8 y with
      | Eq => lex_compare a' b'
      | c => c
      end
  end.

Definition lex_le (a b : list byte) : Prop := lex_compare a b <> Gt.
Definition lex_lt (a b : list byte) : Prop := lex_compare a b = Lt.

Definition is_prefix (a b : list byte) : Prop := exists t, b = a ++ t.

(** ** A stand-in for mbedTLS *)

Fixpoint bytes_eqb (a b : list byte) : bool :=
  match a, b with
  | [], [] => true
  | x :: a', y :: b' => Byte.eqb x y && bytes_eqb a' b'
  | _, _ => false
  end.

(** An instance to run the code on. The constants are those of
    <mbedtls/x509.h>. The primitives are a toy scheme: a key is any
    non-empty byte string, the digest of a message is the message, and a
    signature is valid when it is the key followed by the digest. *)
Definition toy_mbedtls : mbedtls :=
  {| MBEDTLS_X509_BADCERT_NOT_TRUSTED := 0x08;
     MBEDTLS_X509_BADCERT_BAD_MD := 0x4000;
     MBEDTLS_ERR_X509_FATAL_ERROR := -0x3000;
     mbedtls_pk_context := list byte;
     mbedtls_md_info_t := Z;
     mbedtls_pk_parse_public_key :=
       fun key => ((match key with [] => -0x3D00 | _ => 0 end), key);
     mbedtls_pk_can_do := fun _ _ => 1;
     mbedtls_md_info_from_type := fun t => t;
     mbedtls_md := fun _ input => (0, input);
     mbedtls_md_get_size := fun _ => 32;
     mbedtls_pk_verify_ext :=
       fun _ _ pk _ hash _ signature =>
         if bytes_eqb signature (pk ++ hash) then 0 else -0x4380 |}.

(** A certificate with issuer [issuer], followed in memory by [rest], whose
    to-be-signed bytes are [body] and whose signature is [signature]. *)
Definition toy_crt (issuer rest body signature : list byte) : mbedtls_x509_crt :=
  {| issuer_raw := {| len := Z.of_nat (length issuer); p := issuer ++ rest |};
     tbs := {| len := Z.of_nat (length body); p := body |};
     sig_pk := 1;
     sig_md := 6;
     sig_opts := 0;
     crt_sig := {| len := Z.of_nat (length signature); p := signature |} |}.

(** ** Declared structure of a candidate buffer *)

(** The entry count the first two bytes declare, as [init] reads it. *)
Definition declared_certs (x : list byte) : Z :=
  (be16 (idx x 0) (idx x 1)) mod 65536.

(** The offset reached after walking [i] entries from offset 2, advancing
    by [4 + name_len + key_len] per entry. *)
Fixpoint cursor (x : list byte) (i : nat) : Z :=
  match i with
  | O => BUNDLE_HEADER_OFFSET
  | S i' =>
      let c := cursor x i' in
      c + CRT_HEADER_OFFSET + be16 (idx x c) (idx x (c + 1))
        + be16 (idx x (c + 2)) (idx x (c + 3))
  end.

(** A well-formed bundle: every declared entry fits in the buffer and the
    last one ends exactly at the buffer length. *)
Definition well_formed (x : list byte) : Prop :=
  let n := Z.to_nat (declared_certs x) in
  BUNDLE_HEADER_OFFSET <= Z.of_nat (length x) /\
  (forall i, (i < n)%nat -> cursor x (S i) <= Z.of_nat (length x)) /\
  cursor x n = Z.of_nat (length x).

(** The subject name stored for slot [middle]: [name_len] bytes after the
    entry header. *)
Definition entry_name (g : globals) (table : list Z) (middle : Z)
  : result (list byte) :=
  q <- table_at table middle ;;
  name_len <- load_be16 (bundleBytes g) q ;;
  slice (bundleBytes g) (q + CRT_HEADER_OFFSET) name_len.

(** ** Concrete bundles used in the examples below *)

(** One entry, name "A", key "k". *)
Definition bundle_A : list byte := [x00; x01; x00; x01; x00; x01; x41; x6b].

(** Same size as [bundle_A]; its only entry declares a key of 65535 bytes,
    far past the end of the buffer. *)
Definition bundle_overlong : list byte :=
  [x00; x01; x00; x01; xff; xff; x5a; x6b].

(** Certificates for the toy scheme, issued by "A", "AB" and "Z", signed
    with key "k" over the body 01. *)
Definition crt_by_A : mbedtls_x509_crt := toy_crt [x41] [] [x01] [x6b; x01].
Definition crt_by_AB : mbedtls_x509_crt := toy_crt [x41; x42] [] [x01] [x6b; x01].
Definition crt_by_Z : mbedtls_x509_crt := toy_crt [x5a] [] [x01] [x6b; x01].

(** The statics after [bundle_A] was loaded at start-up. *)
Definition loaded_A : globals := fst (init true bundle_A globals0).

(** ** Derived notions used in the statements *)

(** The statics [init] installs for an accepted buffer [x]. *)
Definition installed (x : list byte) (g : globals) : globals :=
  {| bundleBytes := x;
     s_should_verify_certs := true;
     s_crt_bundle :=
       {| crts := Some (map (cursor x)
                          (seq 0 (Z.to_nat (declared_certs x))));
          num_certs := declared_certs x;
          x509_crt_bundle_len := x509_crt_bundle_len (s_crt_bundle g) |} |}.

(** The statics after an encoded bundle [es] was accepted. *)
Definition bundle_state (es : list (list byte * list byte)) (g : globals)
  : globals :=
  {| bundleBytes := encode_bundle es;
     s_should_verify_certs := true;
     s_crt_bundle :=
       {| crts := Some (entry_offsets BUNDLE_HEADER_OFFSET es);
          num_certs := Z.of_nat (length es);
          x509_crt_bundle_len := x509_crt_bundle_len (s_crt_bundle g) |} |}.

Definition names (es : list (list byte * list byte)) : list (list byte) :=
  map fst es.

(** No subject name of the bundle is a proper prefix of another one. *)
Definition prefix_free (es : list (list byte * list byte)) : Prop :=
  forall a b, In a (names es) -> In b (names es) -> is_prefix a b -> a = b.

(** Two encoded bundles used as examples: "A" alone, and "A", "AB". *)
Definition entries_A : list (list byte * list byte) := [([x41], [x6b])].
Definition entries_A_AB : list (list byte * list byte) :=
  [([x41], [x6b]); ([x41; x42], [x6c])].

(** The entries "A", "B", "C", each with the key "k", and certificates for
    the toy scheme issued by "B" and by "D". *)
Definition entries_ABC : list (list byte * list byte) :=
  [([x41], [x6b]); ([x42], [x6b]); ([x43], [x6b])].
Definition crt_by_B : mbedtls_x509_crt := toy_crt [x42] [] [x01] [x6b; x01].
Definition crt_by_D : mbedtls_x509_crt := toy_crt [x44] [] [x01] [x6b; x01].

(** ** Consistency of the statics *)

(** What every store reached from the zero-initialised statics satisfies:
    the verification flag is set exactly when the table is non-null, the
    table has [num_certs] slots, [num_certs] fits 16 bits, and
    [x509_crt_bundle_len], which no function assigns, is still 0. *)
Definition store_consistent (g : globals) : Prop :=
  (crts (s_crt_bundle g) = None <-> s_should_verify_certs g = false) /\
  (forall table, crts (s_crt_bundle g) = Some table ->
                 Z.of_nat (length table) = num_certs (s_crt_bundle g)) /\
  0 <= num_certs (s_crt_bundle g) < 65536 /\
  x509_crt_bundle_len (s_crt_bundle g) = 0.

(** ** CentralAudioBuffer (main/audio-dsp/include/CentralAudioBuffer.h) *)

(** [bell::CircularBuffer] is declared in CircularBuffer.h, which is not
    among the sources: its constructor and its [emptyExcept] are the
    fields of this class. *)
Class circular_buffer : Type := {
  CircularBuffer : Type;
  make_CircularBuffer : Z -> CircularBuffer;
  emptyExcept : CircularBuffer -> Z -> CircularBuffer
}.

(** The members of the class. [accessMutex] is [true] while the mutex is
    held; [isLocked] is the atomic flag. The calls are those of one thread,
    in sequence. *)
Record CentralAudioBuffer {cb : circular_buffer} : Type := {
  audioBuffer : CircularBuffer;
  accessMutex : bool;
  sampleRate : Z;
  isLocked : bool
}.

(** Misuse of [std::mutex], undefined in C++: [lock] by the thread that
    holds it, [unlock] of a mutex that is not held. *)
Inductive mutex_misuse : Type :=
| lock_while_held
| unlock_while_free.

Section CentralAudioBufferCode.
Context {cb : circular_buffer}.

(** [CentralAudioBuffer(size)], with the member initialisers. *)
Definition CentralAudioBuffer_new (size : Z) : CentralAudioBuffer :=
  {| audioBuffer := make_CircularBuffer size;
     accessMutex := false;
     sampleRate := 0;
     isLocked := false |}.

Definition configureOutput (this : CentralAudioBuffer) (format : Z)
    (sampleRate' : Z) : CentralAudioBuffer :=
  if negb (sampleRate this =? sampleRate') then
    {| audioBuffer := audioBuffer this;
       accessMutex := accessMutex this;
       sampleRate := sampleRate';
       isLocked := isLocked this |}
  else this.

Definition getSampleRate (this : CentralAudioBuffer) : Z := sampleRate this.

Definition clearBuffer (this : CentralAudioBuffer) : CentralAudioBuffer :=
  {| audioBuffer := emptyExcept (audioBuffer this) (sampleRate this);
     accessMutex := accessMutex this;
     sampleRate := sampleRate this;
     isLocked := isLocked this |}.

Definition lockAccess (this : CentralAudioBuffer)
  : mutex_misuse + CentralAudioBuffer :=
  if negb (isLocked this) then
    let this := clearBuffer this in
    if accessMutex this then inl lock_while_held
    else inr {| audioBuffer := audioBuffer this;
                accessMutex := true;
                sampleRate := sampleRate this;
                isLocked := true |}
  else inr this.

Definition unlockAccess (this : CentralAudioBuffer)
  : mutex_misuse + CentralAudioBuffer :=
  if isLocked this then
    let this := clearBuffer this in
    if accessMutex this then
      inr {| audioBuffer := audioBuffer this;
             accessMutex := false;
             sampleRate := sampleRate this;
             isLocked := false |}
    else inl unlock_while_free
  else inr this.

(** The calls a client can make, [write] apart (it blocks on the buffer's
    semaphore until another thread drains the buffer). *)
Inductive buffer_call : Type :=
| call_configureOutput (format sampleRate' : Z)
| call_getSampleRate
| call_clearBuffer
| call_lockAccess
| call_unlockAccess.

Definition buffer_step (this : CentralAudioBuffer) (c : buffer_call)
  : mutex_misuse + CentralAudioBuffer :=
  match c with
  | call_configureOutput format sampleRate' =>
      inr (configureOutput this format sampleRate')
  | call_getSampleRate => inr this
  | call_clearBuffer => inr (clearBuffer this)
  | call_lockAccess => lockAccess this
  | call_unlockAccess => unlockAccess this
  end.

Fixpoint buffer_run (this : CentralAudioBuffer) (cs : list buffer_call)
  : mutex_misuse + CentralAudioBuffer :=
  match cs with
  | [] => inr this
  | c :: cs' =>
      match buffer_step this c with
      | inl e => inl e
      | inr this' => buffer_run this' cs'
      end
  end.

(** The rate of the last [configureOutput] among [cs], [r] if there is
    none. *)
Fixpoint last_configured (r : Z) (cs : list buffer_call) : Z :=
  match cs with
  | [] => r
  | call_configureOutput _ r' :: cs' => last_configured r' cs'
  | _ :: cs' => last_configured r cs'
  end.

End CentralAudioBufferCode.

(** A circular buffer reduced to its fill level, to run the code on:
    [emptyExcept] keeps at most the given number of bytes. *)
Definition level_buffer : circular_buffer :=
  {| CircularBuffer := Z;
     make_CircularBuffer := fun _ => 0;
     emptyExcept := fun level keep => Z.min level keep |}.

(** * Properties *)

(** ** Deferral (C7, C9) *)

Section HookProperties.
Context {tls : mbedtls}.

Lemma crtVerifyCallback_unfold_trusted g crt depth flags :
  flags_filtered flags = MBEDTLS_X509_BADCERT_NOT_TRUSTED ->
  crtVerifyCallback g crt depth flags =
  match crts (s_crt_bundle g) with
  | None => Ok (MBEDTLS_ERR_X509_FATAL_ERROR, flags, [])
  | Some table =>
      '(crt_found, middle, name_len) <- find_crt g table crt ;;
      '(ret, calls) <-
        (if crt_found : bool then
           key <- found_key g table middle name_len ;;
           Ok (crtCheckCertificate crt key)
         else Ok (MBEDTLS_ERR_X509_FATAL_ERROR, [])) ;;
      if ret =? 0 then Ok (0, 0, calls)
      else Ok (MBEDTLS_ERR_X509_FATAL_ERROR, flags, calls)
  end.
Proof.
  intros Hf. unfold crtVerifyCallback.
  rewrite Hf, Z.eqb_refl. reflexivity.
Qed.

(** C7. Whenever the flags, once the weak-digest bit is masked off, are
    anything but exactly the untrusted bit, the hook returns 0 and leaves the
    caller's flags as they were; it calls nothing in mbedTLS and its result
    does not depend on the statics, so no bundle lookup and no signature
    check took place. *)
Theorem crtVerifyCallback_defers (g : globals) (crt : mbedtls_x509_crt)
    (depth flags : Z) :
  flags_filtered flags <> MBEDTLS_X509_BADCERT_NOT_TRUSTED ->
  crtVerifyCallback g crt depth flags = Ok (0, flags, []) /\
  forall g', crtVerifyCallback g' crt depth flags
             = crtVerifyCallback g crt depth flags.
Proof.
  intros Hf.
  assert (E : forall h, crtVerifyCallback h crt depth flags = Ok (0, flags, [])).
  { intros h. unfold crtVerifyCallback.
    destruct (Z.eqb_spec (flags_filtered flags) MBEDTLS_X509_BADCERT_NOT_TRUSTED)
      as [E | _]; [contradiction | reflexivity]. }
  split; [apply E | intros g'; now rewrite !E].
Qed.

(** C9. With no bundle loaded ([crts] null), a certificate whose masked
    flags are not exactly the untrusted bit still gets 0 with its flags
    unchanged, because the deferral test comes first; the fatal no-bundle
    error is returned exactly for masked flags equal to the untrusted bit. *)
Theorem crtVerifyCallback_defers_before_bundle_test (g : globals)
    (crt : mbedtls_x509_crt) (depth flags : Z) :
  crts (s_crt_bundle g) = None ->
  MBEDTLS_ERR_X509_FATAL_ERROR <> 0 ->
  (flags_filtered flags <> MBEDTLS_X509_BADCERT_NOT_TRUSTED ->
   crtVerifyCallback g crt depth flags = Ok (0, flags, [])) /\
  (flags_filtered flags = MBEDTLS_X509_BADCERT_NOT_TRUSTED ->
   crtVerifyCallback g crt depth flags
   = Ok (MBEDTLS_ERR_X509_FATAL_ERROR, flags, [])) /\
  (forall fl calls,
     crtVerifyCallback g crt depth flags
     = Ok (MBEDTLS_ERR_X509_FATAL_ERROR, fl, calls) ->
     flags_filtered flags = MBEDTLS_X509_BADCERT_NOT_TRUSTED).
Proof.
  intros Hnull Hfatal.
  assert (Hyes : flags_filtered flags = MBEDTLS_X509_BADCERT_NOT_TRUSTED ->
                 crtVerifyCallback g crt depth flags
                 = Ok (MBEDTLS_ERR_X509_FATAL_ERROR, flags, [])).
  { intros Hf. rewrite crtVerifyCallback_unfold_trusted by exact Hf.
    now rewrite Hnull. }
  split; [| split].
  - intros Hf. unfold crtVerifyCallback.
    destruct (Z.eqb_spec (flags_filtered flags) MBEDTLS_X509_BADCERT_NOT_TRUSTED);
      [contradiction | reflexivity].
  - exact Hyes.
  - intros fl calls Hr.
    destruct (Z.eq_dec (flags_filtered flags) MBEDTLS_X509_BADCERT_NOT_TRUSTED)
      as [E | N]; [exact E | exfalso].
    unfold crtVerifyCallback in Hr.
    destruct (Z.eqb_spec (flags_filtered flags) MBEDTLS_X509_BADCERT_NOT_TRUSTED);
      [contradiction |].
    cbn in Hr. injection Hr as H0 _ _. apply Hfatal. now symmetry.
Qed.

(** ** The signature check (C8) *)

(** C8. [crtCheckCertificate] returns 0 exactly when the key parses, the
    parsed key can do the certificate's signature algorithm, the digest of
    the to-be-signed bytes is computed and the signature verifies; the steps
    run in this order and the first one that fails ends the check: the call
    log stops at the failing step, so the compatibility test precedes any
    hashing and nothing is called after a failure. *)
Theorem crtCheckCertificate_steps (child : mbedtls_x509_crt)
    (pub_key : list byte) :
  let parsed := mbedtls_pk_parse_public_key pub_key in
  let can := mbedtls_pk_can_do (snd parsed) (sig_pk child) in
  let md_info := mbedtls_md_info_from_type (sig_md child) in
  let digest := mbedtls_md md_info (buf_bytes (tbs child)) in
  let verified :=
    mbedtls_pk_verify_ext (sig_pk child) (sig_opts child) (snd parsed)
      (sig_md child) (snd digest) (mbedtls_md_get_size md_info)
      (buf_bytes (crt_sig child)) in
  let calls :=
    [call_pk_parse_public_key pub_key; call_pk_can_do (sig_pk child);
     call_md (sig_md child) (buf_bytes (tbs child));
     call_pk_verify_ext (snd digest) (buf_bytes (crt_sig child))] in
  (fst (crtCheckCertificate child pub_key) = 0 <->
   fst parsed = 0 /\ can <> 0 /\ fst digest = 0 /\ verified = 0) /\
  (fst parsed <> 0 ->
   crtCheckCertificate child pub_key = (fst parsed, firstn 1 calls)) /\
  (fst parsed = 0 -> can = 0 ->
   crtCheckCertificate child pub_key = (-1, firstn 2 calls)) /\
  (fst parsed = 0 -> can <> 0 -> fst digest <> 0 ->
   crtCheckCertificate child pub_key = (fst digest, firstn 3 calls)) /\
  (fst parsed = 0 -> can <> 0 -> fst digest = 0 ->
   crtCheckCertificate child pub_key = (verified, calls)).
Proof.
  unfold crtCheckCertificate.
  destruct (mbedtls_pk_parse_public_key pub_key) as [r1 pk]. cbn [fst snd].
  destruct (mbedtls_md (mbedtls_md_info_from_type (sig_md child))
              (buf_bytes (tbs child))) as [r3 hash]. cbn [fst snd].
  destruct (Z.eqb_spec r1 0) as [E1 | N1]; cbn [negb].
  2: { repeat split; intros; cbn in *; try lia; intuition lia. }
  destruct (Z.eqb_spec (mbedtls_pk_can_do pk (sig_pk child)) 0) as [E2 | N2].
  { repeat split; intros; cbn in *; try lia; intuition lia. }
  destruct (Z.eqb_spec r3 0) as [E3 | N3]; cbn [negb].
  2: { repeat split; intros; cbn in *; try lia; intuition lia. }
  repeat split; intros; cbn in *; try lia; intuition lia.
Qed.

End HookProperties.

(** ** Termination of the search *)

Lemma byte_at_fault buf i f : byte_at buf i = Fail f -> f = OutOfBounds.
Proof.
  unfold byte_at. destruct (i <? 0); [congruence |].
  destruct (nth_error buf (Z.to_nat i)); congruence.
Qed.

Lemma table_at_fault table i f : table_at table i = Fail f -> f = OutOfBounds.
Proof.
  unfold table_at. destruct (i <? 0); [congruence |].
  destruct (nth_error table (Z.to_nat i)); congruence.
Qed.

Lemma load_be16_fault buf off f : load_be16 buf off = Fail f -> f = OutOfBounds.
Proof.
  unfold load_be16, bind.
  destruct (byte_at buf off) eqn:E1; [| intros [= <-]; eauto using byte_at_fault].
  destruct (byte_at buf (off + 1)) eqn:E2; [congruence |].
  intros [= <-]; eauto using byte_at_fault.
Qed.

Lemma memcmp_fault s1 s2 n f : memcmp s1 s2 n = Fail f -> f = OutOfBounds.
Proof.
  revert s1 s2. induction n as [| n IH]; intros s1 s2; cbn; [congruence |].
  destruct s1 as [| a s1]; [congruence |].
  destruct s2 as [| b s2]; [congruence |].
  destruct (u8 a =? u8 b); [apply IH | congruence].
Qed.

Lemma compare_candidate_fault g table child middle f :
  compare_candidate g table child middle = Fail f -> f = OutOfBounds.
Proof.
  unfold compare_candidate, bind.
  destruct (table_at table middle) eqn:E1;
    [| intros [= <-]; eauto using table_at_fault].
  destruct (load_be16 (bundleBytes g) a) eqn:E2;
    [| intros [= <-]; eauto using load_be16_fault].
  destruct (memcmp _ _ _) eqn:E3; [congruence |].
  intros [= <-]; eauto using memcmp_fault.
Qed.

(** The window shrinks at every iteration, so fuel no smaller than the
    window is never used up. *)
Lemma search_loop_fuel g table child fuel :
  forall start end_ middle name_len,
    0 <= start ->
    (start <= end_ -> start <= middle <= end_) ->
    end_ - start + 1 <= Z.of_nat fuel ->
    search_loop g table child fuel start end_ middle name_len <> Fail OutOfFuel.
Proof.
  induction fuel as [| fuel IH]; intros start end_ middle name_len H0 Hm Hf.
  - cbn. destruct (Z.leb_spec start end_); [lia | congruence].
  - cbn [search_loop]. destruct (Z.leb_spec start end_) as [Hle | _];
      [| congruence].
    specialize (Hm Hle).
    destruct (compare_candidate g table child middle) as [[nl c] | f] eqn:E.
    + cbn [bind]. destruct (c =? 0); [congruence |].
      destruct (c <? 0).
      * apply IH; [lia | | lia].
        intros Hw. rewrite Z.quot_div_nonneg by lia.
        split; [apply Z.div_le_lower_bound | apply Z.div_le_upper_bound]; lia.
      * apply IH; [lia | | lia].
        intros Hw. rewrite Z.quot_div_nonneg by lia.
        split; [apply Z.div_le_lower_bound | apply Z.div_le_upper_bound]; lia.
    + cbn [bind]. apply compare_candidate_fault in E. congruence.
Qed.

Lemma find_crt_fuel g table child : find_crt g table child <> Fail OutOfFuel.
Proof.
  unfold find_crt. apply search_loop_fuel; [lia | | lia].
  intros Hw. rewrite Z.sub_0_r, Z.quot_div_nonneg by lia.
  split; [apply Z.div_le_lower_bound | apply Z.div_le_upper_bound]; lia.
Qed.

Lemma found_key_fault g table middle name_len f :
  found_key g table middle name_len = Fail f -> f = OutOfBounds.
Proof.
  unfold found_key, bind.
  destruct (table_at table middle) eqn:E1;
    [| intros [= <-]; eauto using table_at_fault].
  destruct (load_be16 (bundleBytes g) (a + 2)) eqn:E2;
    [| intros [= <-]; eauto using load_be16_fault].
  unfold slice. destruct (_ || _); congruence.
Qed.

(** Closes one case of the outcome analysis of the hook: inverts the
    equations between results in the context and concludes by congruence. *)
Ltac c5_case :=
  intros;
  repeat match goal with
         | H : _ /\ _ |- _ => destruct H
         | H : exists _, _ |- _ => destruct H
         | H : Ok _ = Ok _ |- _ => injection H as H; subst
         | H : Some _ = Some _ |- _ => injection H as H; subst
         | H : (_, _) = (_, _) |- _ => injection H as H; subst
         | H : ?a = Ok _, H' : ?a = Ok _ |- _ => rewrite H in H'
         | H : ?a = (_, _), H' : ?a = (_, _) |- _ => rewrite H in H'
         | H : ?a = (_, _) |- context [?a] => rewrite H
         end;
  cbn [fst snd] in *; subst;
  try discriminate; try congruence; try (split; congruence);
  try match goal with
      | H : fst ?a <> 0, E : ?a = (0, _) |- _ =>
          rewrite E in H; cbn in H; congruence
      end.

(** ** All-or-nothing trust (C5) *)

Section Trust.
Context {tls : mbedtls}.

(** C5. For masked flags exactly "untrusted" the hook has two outcomes
    only. It returns 0 with the flags cleared exactly when the search finds
    a matching entry and that entry's key passes the signature check. With
    no bundle, with no matching entry, or when the check fails, it returns
    the fatal error and leaves the flags as they were. The search always
    terminates within its loop bound. *)
Theorem crtVerifyCallback_all_or_nothing (g : globals) (crt : mbedtls_x509_crt)
    (depth flags : Z) :
  flags_filtered flags = MBEDTLS_X509_BADCERT_NOT_TRUSTED ->
  MBEDTLS_ERR_X509_FATAL_ERROR <> 0 ->
  let r := crtVerifyCallback g crt depth flags in
  r <> Fail OutOfFuel /\
  (forall fl calls,
     r = Ok (0, fl, calls) <->
     fl = 0 /\
     exists table middle name_len key,
       crts (s_crt_bundle g) = Some table /\
       find_crt g table crt = Ok (true, middle, name_len) /\
       found_key g table middle name_len = Ok key /\
       crtCheckCertificate crt key = (0, calls)) /\
  (forall ret fl calls,
     r = Ok (ret, fl, calls) -> ret <> 0 ->
     ret = MBEDTLS_ERR_X509_FATAL_ERROR /\ fl = flags) /\
  (crts (s_crt_bundle g) = None ->
   r = Ok (MBEDTLS_ERR_X509_FATAL_ERROR, flags, [])) /\
  (forall table middle name_len,
     crts (s_crt_bundle g) = Some table ->
     find_crt g table crt = Ok (false, middle, name_len) ->
     r = Ok (MBEDTLS_ERR_X509_FATAL_ERROR, flags, [])) /\
  (forall table middle name_len key,
     crts (s_crt_bundle g) = Some table ->
     find_crt g table crt = Ok (true, middle, name_len) ->
     found_key g table middle name_len = Ok key ->
     fst (crtCheckCertificate crt key) <> 0 ->
     r = Ok (MBEDTLS_ERR_X509_FATAL_ERROR, flags,
             snd (crtCheckCertificate crt key))).
Proof.
  intros Hf Hfatal r. subst r.
  rewrite crtVerifyCallback_unfold_trusted by exact Hf.
  pose proof (proj2 (Z.eqb_neq _ _) Hfatal) as Hfb.
  destruct (crts (s_crt_bundle g)) as [table |] eqn:Ecrts.
  2: { repeat split; c5_case. }
  pose proof (find_crt_fuel g table crt) as Hfuel.
  destruct (find_crt g table crt) as [[[found middle] name_len] | f] eqn:Efind;
    cbn [bind].
  2: { repeat split; c5_case. }
  destruct found; cbn [bind].
  2: { rewrite Hfb. repeat split; c5_case. }
  destruct (found_key g table middle name_len) as [key | f] eqn:Ekey;
    cbn [bind].
  2: { pose proof (found_key_fault _ _ _ _ _ Ekey). subst f.
       repeat split; c5_case. }
  destruct (crtCheckCertificate crt key) as [ret calls0] eqn:Echeck.
  destruct (Z.eqb_spec ret 0) as [E0 | N0].
  - subst ret. repeat split; c5_case.
    exists table, middle, name_len, key. repeat split; congruence.
  - repeat split; c5_case.
Qed.

End Trust.

(** ** The verification flag (C10) *)

Lemma init_failure_keeps_flag calloc_ok x g g' e :
  init calloc_ok x g = (g', Some e) ->
  s_should_verify_certs g' = s_should_verify_certs g.
Proof.
  unfold init.
  destruct (_ <? _); [now intros [= <- _] |].
  destruct calloc_ok; cbn [negb]; [| now intros [= <- _]].
  cbn [bundleBytes].
  destruct (init_loop _ _ _ _) as [[table cur] |]; [| now intros [= <- _]].
  destruct (cur >? _); [now intros [= <- _] | discriminate].
Qed.

Lemma init_success_sets_flag calloc_ok x g g' :
  init calloc_ok x g = (g', None) -> shouldVerify g' = true.
Proof.
  unfold init.
  destruct (_ <? _); [discriminate |].
  destruct calloc_ok; cbn [negb]; [| discriminate].
  cbn [bundleBytes].
  destruct (init_loop _ _ _ _) as [[table cur] |]; [| discriminate].
  destruct (cur >? _); [discriminate | now intros [= <-]].
Qed.

Lemma step_keeps_flag g o :
  shouldVerify g = true -> shouldVerify (step g o) = true.
Proof.
  intros Hg. destruct o as [ok x | | | |]; cbn [step attach fst]; try exact Hg.
  destruct (init ok x g) as [g' [e |]] eqn:E; cbn [fst].
  - unfold shouldVerify. now rewrite (init_failure_keeps_flag _ _ _ _ _ E).
  - eapply init_success_sets_flag, E.
Qed.

(** C10. Once [shouldVerify()] is true it stays true after any sequence of
    operations of the subsystem; in particular a load that throws, for
    either reason, leaves the flag as it was. *)
Theorem shouldVerify_monotone (g : globals) :
  shouldVerify g = true ->
  (forall ops, shouldVerify (run g ops) = true) /\
  (forall calloc_ok x g' e,
     init calloc_ok x g = (g', Some e) -> shouldVerify g' = true).
Proof.
  intros Hg. split.
  - intros ops. revert g Hg. unfold run.
    induction ops as [| o ops IH]; intros g Hg; cbn [fold_left].
    + exact Hg.
    + apply IH, step_keeps_flag, Hg.
  - intros ok x g' e E. unfold shouldVerify.
    now rewrite (init_failure_keeps_flag _ _ _ _ _ E).
Qed.

(** ** A failed load and the active store (C1) *)

(** The two failures detected before the copy leave every static as it
    was. *)
Lemma init_early_failure_unchanged calloc_ok x g :
  Z.of_nat (length x) < BUNDLE_HEADER_OFFSET + CRT_HEADER_OFFSET \/
  calloc_ok = false ->
  fst (init calloc_ok x g) = g /\ snd (init calloc_ok x g) <> None.
Proof.
  unfold init. intros [Hs | ->].
  - destruct (Z.ltb_spec (Z.of_nat (length x))
                (BUNDLE_HEADER_OFFSET + CRT_HEADER_OFFSET)); [| lia].
    split; [reflexivity | discriminate].
  - destruct (_ <? _); split; cbn; try reflexivity; discriminate.
Qed.

(** C1, on the code. With [bundle_A] active, loading [bundle_overlong]
    throws "Invalid certificate bundle", yet [bundleBytes] now holds the
    rejected candidate while [crts] still points into it. The certificate
    issued by "A", accepted before the failed load, is refused after it; a
    certificate issued by "Z", unknown before, now matches slot 0, whose key
    length of 65535 runs past the end of the buffer. *)
Theorem init_failed_load_overwrites_bundleBytes :
  let g2 := fst (init true bundle_overlong loaded_A) in
  snd (init true bundle_overlong loaded_A) = Some InvalidBundle /\
  bundleBytes loaded_A = bundle_A /\
  bundleBytes g2 = bundle_overlong /\
  s_crt_bundle g2 = s_crt_bundle loaded_A /\
  (exists calls,
     @crtVerifyCallback toy_mbedtls loaded_A crt_by_A 0 8 = Ok (0, 0, calls)) /\
  @crtVerifyCallback toy_mbedtls g2 crt_by_A 0 8 = Ok (-0x3000, 8, []) /\
  @crtVerifyCallback toy_mbedtls loaded_A crt_by_Z 0 8 = Ok (-0x3000, 8, []) /\
  @crtVerifyCallback toy_mbedtls g2 crt_by_Z 0 8 = Fail OutOfBounds.
Proof.
  vm_compute. repeat split; try reflexivity. eexists. reflexivity.
Qed.

(** ** Structural validation by init (C6) *)

Lemma init_loop_cursor_ok x e n :
  forall i,
    (forall k, (k < n)%nat -> cursor x (i + k) + CRT_HEADER_OFFSET <= e) ->
    init_loop x e n (cursor x i)
    = Some (map (cursor x) (seq i n), cursor x (i + n)).
Proof.
  induction n as [| n IH]; intros i H; cbn [init_loop seq map].
  - now rewrite Nat.add_0_r.
  - pose proof (H 0%nat ltac:(lia)) as H0. rewrite Nat.add_0_r in H0.
    destruct (Z.gtb_spec (cursor x i + CRT_HEADER_OFFSET) e); [lia |].
    change (cursor x i + CRT_HEADER_OFFSET
            + be16 (idx x (cursor x i)) (idx x (cursor x i + 1))
            + be16 (idx x (cursor x i + 2)) (idx x (cursor x i + 3)))
      with (cursor x (S i)).
    rewrite IH.
    + now rewrite Nat.add_succ_r.
    + intros k Hk. specialize (H (S k) ltac:(lia)).
      now rewrite Nat.add_succ_r in H.
Qed.

Lemma init_loop_cursor_fail x e n :
  forall i,
    (exists k, (k < n)%nat /\ cursor x (i + k) + CRT_HEADER_OFFSET > e) ->
    init_loop x e n (cursor x i) = None.
Proof.
  induction n as [| n IH]; intros i (k & Hk & Hc); [lia |].
  cbn [init_loop].
  destruct (Z.gtb_spec (cursor x i + CRT_HEADER_OFFSET) e); [reflexivity |].
  change (cursor x i + CRT_HEADER_OFFSET
          + be16 (idx x (cursor x i)) (idx x (cursor x i + 1))
          + be16 (idx x (cursor x i + 2)) (idx x (cursor x i + 3)))
    with (cursor x (S i)).
  rewrite IH; [reflexivity |].
  destruct k as [| k]; [rewrite Nat.add_0_r in Hc; lia |].
  exists k. split; [lia |]. now rewrite Nat.add_succ_r in Hc.
Qed.

Lemma u8_range b : 0 <= u8 b < 256.
Proof.
  unfold u8. pose proof (Byte.to_N_bounded b) as H.
  split; [apply N2Z.is_nonneg |].
  change 256 with (Z.of_N 256). apply N2Z.inj_lt. lia.
Qed.

Lemma be16_value hi lo : be16 hi lo = 256 * u8 hi + u8 lo.
Proof.
  unfold be16. pose proof (u8_range hi). pose proof (u8_range lo).
  rewrite Z.shiftl_mul_pow2 by lia.
  assert (D : Z.land (u8 hi * 2 ^ 8) (u8 lo) = 0).
  { apply Z.bits_inj'. intros k Hk. rewrite Z.land_spec, Z.bits_0.
    destruct (Z.lt_ge_cases k 8).
    - now rewrite Z.mul_pow2_bits_low.
    - rewrite (Z.bits_above_log2 (u8 lo) k), andb_false_r; [reflexivity | lia |].
      destruct (Z.eq_dec (u8 lo) 0) as [-> | N]; [cbn; lia |].
      apply Z.log2_lt_pow2; [lia |].
      apply Z.lt_le_trans with (2 ^ 8); [lia | apply Z.pow_le_mono_r; lia]. }
  rewrite <- Z.lxor_lor, <- Z.add_nocarry_lxor by exact D. lia.
Qed.

Lemma be16_range hi lo : 0 <= be16 hi lo < 65536.
Proof.
  rewrite be16_value. pose proof (u8_range hi). pose proof (u8_range lo). lia.
Qed.

Lemma cursor_step_le x i : cursor x i + CRT_HEADER_OFFSET <= cursor x (S i).
Proof.
  cbn [cursor].
  pose proof (be16_range (idx x (cursor x i)) (idx x (cursor x i + 1))).
  pose proof (be16_range (idx x (cursor x i + 2)) (idx x (cursor x i + 3))).
  lia.
Qed.

Lemma init_loop_cursor_inv x e n :
  forall i table cur,
    init_loop x e n (cursor x i) = Some (table, cur) ->
    table = map (cursor x) (seq i n) /\ cur = cursor x (i + n) /\
    forall k, (k < n)%nat -> cursor x (i + k) + CRT_HEADER_OFFSET <= e.
Proof.
  induction n as [| n IH]; intros i table cur; cbn [init_loop seq map].
  - intros [= <- <-]. rewrite Nat.add_0_r. repeat split. intros k Hk; lia.
  - destruct (Z.gtb_spec (cursor x i + CRT_HEADER_OFFSET) e); [discriminate |].
    change (cursor x i + CRT_HEADER_OFFSET
            + be16 (idx x (cursor x i)) (idx x (cursor x i + 1))
            + be16 (idx x (cursor x i + 2)) (idx x (cursor x i + 3)))
      with (cursor x (S i)).
    destruct (init_loop x e n (cursor x (S i))) as [[rest last] |] eqn:E;
      [| discriminate].
    intros [= <- <-]. destruct (IH _ _ _ E) as (-> & -> & Hk).
    rewrite Nat.add_succ_r. repeat split.
    intros [| k] Hlt; [now rewrite Nat.add_0_r |].
    rewrite Nat.add_succ_r. apply (Hk k). lia.
Qed.

Lemma init_unfold x g :
  init true x g =
  if Z.of_nat (length x) <? 6 then (g, Some InvalidBundle)
  else
    let g1 := {| bundleBytes := x;
                 s_should_verify_certs := s_should_verify_certs g;
                 s_crt_bundle := s_crt_bundle g |} in
    match init_loop x (Z.of_nat (length x)) (Z.to_nat (declared_certs x))
            (cursor x 0) with
    | None => (g1, Some InvalidBundle)
    | Some (table, cur_crt) =>
        if cur_crt >? Z.of_nat (length x) then (g1, Some InvalidBundle)
        else
          ({| bundleBytes := x;
              s_should_verify_certs := true;
              s_crt_bundle :=
                {| crts := Some table;
                   num_certs := declared_certs x;
                   x509_crt_bundle_len :=
                     x509_crt_bundle_len (s_crt_bundle g) |} |},
           None)
    end.
Proof. reflexivity. Qed.

(** C6, with the amendment that the bundle declares at least one entry.
    A buffer of fewer than 6 bytes is rejected; so is, the table being
    allocated, a buffer in which the 4 header bytes of some declared entry
    would end past the buffer, or whose cursor after all declared entries is
    past the buffer. A well-formed bundle with at least one entry is
    accepted: the walk ends exactly at the buffer length and slot [i] of the
    table is the offset reached from 2 by advancing [4 + name_len + key_len]
    per entry. *)
Theorem init_validates_structure (x : list byte) (g : globals) :
  let size := Z.of_nat (length x) in
  let n := Z.to_nat (declared_certs x) in
  (size < 6 -> forall calloc_ok,
     init calloc_ok x g = (g, Some InvalidBundle)) /\
  (6 <= size ->
   (exists i, (i < n)%nat /\ cursor x i + 4 > size) ->
   snd (init true x g) = Some InvalidBundle) /\
  (6 <= size -> cursor x n > size ->
   snd (init true x g) = Some InvalidBundle) /\
  (well_formed x -> (0 < n)%nat ->
   init_loop x size n BUNDLE_HEADER_OFFSET
   = Some (map (cursor x) (seq 0 n), size) /\
   init true x g = (installed x g, None)).
Proof.
  intros size n. rewrite init_unfold. fold size n.
  repeat split.
  - intros Hs ok. unfold init. fold size.
    change (BUNDLE_HEADER_OFFSET + CRT_HEADER_OFFSET) with 6.
    destruct (Z.ltb_spec size 6); [reflexivity | lia].
  - intros Hs Hex. destruct (Z.ltb_spec size 6); [lia |]. cbv zeta.
    now rewrite (init_loop_cursor_fail x size n 0 Hex).
  - intros Hs Hc. destruct (Z.ltb_spec size 6); [lia |]. cbv zeta.
    destruct (init_loop x size n (cursor x 0)) as [[table cur] |] eqn:E;
      [| reflexivity].
    destruct (init_loop_cursor_inv _ _ _ _ _ _ E) as (_ & -> & _).
    cbn [Nat.add]. destruct (Z.gtb_spec (cursor x n) size); [reflexivity | lia].
  - destruct H as (_ & Hfit & Hend). fold n size in Hfit, Hend.
    change BUNDLE_HEADER_OFFSET with (cursor x 0).
    rewrite (init_loop_cursor_ok x size n 0).
    + cbn [Nat.add]. now rewrite Hend.
    + intros k Hk. cbn [Nat.add]. pose proof (Hfit k Hk).
      pose proof (cursor_step_le x k). lia.
  - destruct H as (_ & Hfit & Hend). fold n size in Hfit, Hend.
    assert (H6 : 6 <= size).
    { pose proof (Hfit 0%nat H0). pose proof (cursor_step_le x 0).
      cbn [cursor] in *. unfold BUNDLE_HEADER_OFFSET, CRT_HEADER_OFFSET in *.
      lia. }
    destruct (Z.ltb_spec size 6); [lia |]. cbv zeta.
    rewrite (init_loop_cursor_ok x size n 0).
    + cbn [Nat.add]. rewrite Hend.
      destruct (Z.gtb_spec size size); [lia | reflexivity].
    + intros k Hk. cbn [Nat.add]. pose proof (Hfit k Hk).
      pose proof (cursor_step_le x k). lia.
Qed.

(** The claim of C6 fails for the bundle that declares no entry: it is
    well-formed (nothing to fit, and the walk ends at the buffer length 2),
    yet it is shorter than 6 bytes and [init] throws. *)
Lemma init_rejects_empty_bundle :
  ~ (well_formed [x00; x00] ->
     snd (init true [x00; x00] globals0) = None).
Proof.
  intros H.
  assert (W : well_formed [x00; x00]).
  { unfold well_formed.
    change (Z.to_nat (declared_certs [x00; x00])) with 0%nat.
    repeat split; [now cbv | intros i Hi; lia]. }
  specialize (H W). vm_compute in H. discriminate H.
Qed.

(** ** Bytes of an encoded bundle *)

Lemma u8_inj a b : u8 a = u8 b -> a = b.
Proof.
  unfold u8. intros H. apply N2Z.inj in H.
  pose proof (Byte.of_to_N a) as Ha. rewrite H, Byte.of_to_N in Ha. congruence.
Qed.

Lemma u8_byte_of z : 0 <= z < 256 -> u8 (byte_of z) = z.
Proof.
  intros Hz. unfold u8, byte_of.
  destruct (Byte.of_N (Z.to_N z)) as [b |] eqn:E.
  - apply Byte.to_of_N in E. rewrite E. lia.
  - apply Byte.of_N_None_iff in E. lia.
Qed.

Lemma be16_enc16 n h l :
  0 <= n < 65536 -> enc16 n = [h; l] -> be16 h l = n.
Proof.
  intros Hn [= <- <-]. rewrite be16_value, !u8_byte_of.
  - pose proof (Z.div_mod n 256). lia.
  - apply Z.mod_pos_bound. lia.
  - split; [apply Z.div_pos; lia | apply Z.div_lt_upper_bound; lia].
Qed.

Lemma idx_app pre l k :
  0 <= k -> idx (pre ++ l) (Z.of_nat (length pre) + k) = idx l k.
Proof.
  intros Hk. unfold idx.
  replace (Z.to_nat (Z.of_nat (length pre) + k))
    with (length pre + Z.to_nat k)%nat by lia.
  apply app_nth2_plus.
Qed.

Lemma byte_at_app pre l k :
  0 <= k -> byte_at (pre ++ l) (Z.of_nat (length pre) + k) = byte_at l k.
Proof.
  intros Hk. unfold byte_at.
  destruct (Z.ltb_spec (Z.of_nat (length pre) + k) 0); [lia |].
  destruct (Z.ltb_spec k 0); [lia |].
  rewrite nth_error_app2 by lia.
  replace (Z.to_nat (Z.of_nat (length pre) + k) - length pre)%nat
    with (Z.to_nat k) by lia.
  reflexivity.
Qed.

Lemma mem_from_app pre l k :
  0 <= k -> mem_from (pre ++ l) (Z.of_nat (length pre) + k) = mem_from l k.
Proof.
  intros Hk. unfold mem_from.
  destruct (Z.ltb_spec (Z.of_nat (length pre) + k) 0); [lia |].
  destruct (Z.ltb_spec k 0); [lia |].
  rewrite skipn_app, skipn_all2 by lia.
  replace (Z.to_nat (Z.of_nat (length pre) + k) - length pre)%nat
    with (Z.to_nat k) by lia.
  reflexivity.
Qed.

Lemma mem_from_length l t : mem_from (l ++ t) (Z.of_nat (length l)) = t.
Proof.
  rewrite <- (Z.add_0_r (Z.of_nat (length l))), mem_from_app by lia.
  reflexivity.
Qed.

Lemma slice_app pre l t :
  slice (pre ++ l ++ t) (Z.of_nat (length pre)) (Z.of_nat (length l)) = Ok l.
Proof.
  unfold slice.
  destruct (Z.ltb_spec (Z.of_nat (length pre)) 0); [lia |].
  destruct (Z.ltb_spec (Z.of_nat (length l)) 0); [lia |].
  rewrite !length_app.
  destruct (Z.ltb_spec (Z.of_nat (length pre + (length l + length t)))
              (Z.of_nat (length pre) + Z.of_nat (length l))); [lia |].
  cbn [orb]. rewrite !Nat2Z.id, skipn_app, skipn_all, Nat.sub_diag.
  cbn [skipn app]. rewrite firstn_app, firstn_all, Nat.sub_diag.
  cbn [firstn]. now rewrite app_nil_r.
Qed.

Lemma encode_entry_length e :
  Z.of_nat (length (encode_entry e))
  = CRT_HEADER_OFFSET + Z.of_nat (length (fst e)) + Z.of_nat (length (snd e)).
Proof.
  unfold encode_entry, enc16, CRT_HEADER_OFFSET.
  cbn [app length]. rewrite length_app. lia.
Qed.

Lemma header_reads pre h0 h1 h2 h3 tl :
  let bytes := pre ++ h0 :: h1 :: h2 :: h3 :: tl in
  let q := Z.of_nat (length pre) in
  (idx bytes q = h0 /\ idx bytes (q + 1) = h1 /\
   idx bytes (q + 2) = h2 /\ idx bytes (q + 3) = h3) /\
  (byte_at bytes q = Ok h0 /\ byte_at bytes (q + 1) = Ok h1 /\
   byte_at bytes (q + 2) = Ok h2 /\ byte_at bytes (q + 2 + 1) = Ok h3) /\
  mem_from bytes (q + CRT_HEADER_OFFSET) = tl.
Proof.
  intros bytes q. subst bytes q.
  rewrite <- (Z.add_0_r (Z.of_nat (length pre))), <- !Z.add_assoc.
  rewrite !idx_app, !byte_at_app, mem_from_app
    by (unfold CRT_HEADER_OFFSET; lia).
  repeat split.
Qed.

(** What the code reads from an entry laid out at offset [length pre]. *)
Lemma entry_layout pre name key post :
  Z.of_nat (length name) < 65536 ->
  Z.of_nat (length key) < 65536 ->
  let bytes := pre ++ encode_entry (name, key) ++ post in
  let q := Z.of_nat (length pre) in
  be16 (idx bytes q) (idx bytes (q + 1)) = Z.of_nat (length name) /\
  be16 (idx bytes (q + 2)) (idx bytes (q + 3)) = Z.of_nat (length key) /\
  load_be16 bytes q = Ok (Z.of_nat (length name)) /\
  load_be16 bytes (q + 2) = Ok (Z.of_nat (length key)) /\
  mem_from bytes (q + CRT_HEADER_OFFSET) = name ++ key ++ post /\
  slice bytes (q + CRT_HEADER_OFFSET) (Z.of_nat (length name)) = Ok name /\
  slice bytes (q + CRT_HEADER_OFFSET + Z.of_nat (length name))
    (Z.of_nat (length key)) = Ok key.
Proof.
  intros Hn Hk bytes q.
  pose proof (be16_enc16 (Z.of_nat (length name)) _ _ ltac:(lia) eq_refl) as En.
  pose proof (be16_enc16 (Z.of_nat (length key)) _ _ ltac:(lia) eq_refl) as Ek.
  set (h0 := byte_of (Z.of_nat (length name) / 256)) in *.
  set (h1 := byte_of (Z.of_nat (length name) mod 256)) in *.
  set (h2 := byte_of (Z.of_nat (length key) / 256)) in *.
  set (h3 := byte_of (Z.of_nat (length key) mod 256)) in *.
  assert (Eb : bytes = pre ++ h0 :: h1 :: h2 :: h3 :: name ++ key ++ post).
  { subst bytes. unfold encode_entry, enc16. cbn [fst snd app].
    now rewrite <- app_assoc. }
  destruct (header_reads pre h0 h1 h2 h3 (name ++ key ++ post))
    as ((I0 & I1 & I2 & I3) & (B0 & B1 & B2 & B3) & M).
  rewrite <- Eb in *. fold q in I0, I1, I2, I3, B0, B1, B2, B3, M.
  unfold load_be16. rewrite I0, I1, I2, I3, B0, B1, B2, B3, M. cbn [bind].
  rewrite En, Ek. repeat split.
  - rewrite Eb. subst q. unfold CRT_HEADER_OFFSET.
    replace (Z.of_nat (length pre) + 4)
      with (Z.of_nat (length (pre ++ [h0; h1; h2; h3])))
      by (rewrite length_app; cbn [length]; lia).
    rewrite <- (slice_app (pre ++ [h0; h1; h2; h3]) name (key ++ post)).
    f_equal. rewrite <- !app_assoc. reflexivity.
  - rewrite Eb. subst q. unfold CRT_HEADER_OFFSET.
    replace (Z.of_nat (length pre) + 4 + Z.of_nat (length name))
      with (Z.of_nat (length (pre ++ [h0; h1; h2; h3] ++ name)))
      by (rewrite !length_app; cbn [length]; lia).
    rewrite <- (slice_app (pre ++ [h0; h1; h2; h3] ++ name) key post).
    f_equal. rewrite <- !app_assoc. reflexivity.
Qed.

Lemma init_loop_encoded es :
  forall pre,
    Forall (fun e => Z.of_nat (length (fst e)) < 65536 /\
                     Z.of_nat (length (snd e)) < 65536) es ->
    let bytes := pre ++ concat (map encode_entry es) in
    init_loop bytes (Z.of_nat (length bytes)) (length es)
      (Z.of_nat (length pre))
    = Some (entry_offsets (Z.of_nat (length pre)) es, Z.of_nat (length bytes)).
Proof.
  induction es as [| [name key] es IH]; intros pre Hs bytes; subst bytes.
  - cbn. now rewrite app_nil_r.
  - inversion Hs as [| ? ? [Hn Hk] Hs']; subst. cbn [fst snd] in Hn, Hk.
    cbn [map concat length init_loop entry_offsets fst snd].
    destruct (entry_layout pre name key (concat (map encode_entry es)) Hn Hk)
      as (E1 & E2 & _).
    rewrite E1, E2.
    pose proof (encode_entry_length (name, key)) as L. cbn [fst snd] in L.
    destruct (Z.gtb_spec (Z.of_nat (length pre) + CRT_HEADER_OFFSET)
                (Z.of_nat (length (pre ++ encode_entry (name, key)
                                     ++ concat (map encode_entry es)))))
      as [Hgt | _].
    { rewrite !length_app in Hgt. unfold CRT_HEADER_OFFSET in *. lia. }
    replace (Z.of_nat (length pre) + CRT_HEADER_OFFSET
             + Z.of_nat (length name) + Z.of_nat (length key))
      with (Z.of_nat (length (pre ++ encode_entry (name, key))))
      by (rewrite length_app; lia).
    rewrite app_assoc. now rewrite (IH (pre ++ encode_entry (name, key)) Hs').
Qed.

Lemma entry_offsets_length es : forall off, length (entry_offsets off es) = length es.
Proof. induction es as [| e es IH]; intros off; cbn; [| rewrite IH]; reflexivity. Qed.

Lemma entry_offsets_nth es :
  forall off m e,
    nth_error es m = Some e ->
    exists pre post,
      concat (map encode_entry es) = pre ++ encode_entry e ++ post /\
      nth_error (entry_offsets off es) m = Some (off + Z.of_nat (length pre)).
Proof.
  induction es as [| e0 es IH]; intros off m e Hm.
  - destruct m; discriminate.
  - destruct m as [| m]; cbn [nth_error] in Hm.
    + injection Hm as ->. exists [], (concat (map encode_entry es)).
      cbn. split; [reflexivity | f_equal; lia].
    + destruct (IH (off + CRT_HEADER_OFFSET + Z.of_nat (length (fst e0))
                    + Z.of_nat (length (snd e0))) m e Hm)
        as (pre & post & Ec & En).
      exists (encode_entry e0 ++ pre), post. split.
      * cbn [map concat]. now rewrite Ec, app_assoc.
      * cbn [entry_offsets nth_error]. rewrite En. f_equal.
        rewrite length_app, Nat2Z.inj_add, encode_entry_length. lia.
Qed.

(** Loading an encoded bundle with at least one entry succeeds. *)
Lemma init_encode_bundle es g :
  encodable es -> es <> [] ->
  init true (encode_bundle es) g = (bundle_state es g, None).
Proof.
  intros [Hn Hs] Hne. unfold init.
  assert (Hlen : 6 <= Z.of_nat (length (encode_bundle es))).
  { destruct es as [| e es]; [congruence |].
    unfold encode_bundle, enc16. cbn [map concat app length].
    rewrite !length_app. pose proof (encode_entry_length e).
    unfold CRT_HEADER_OFFSET in *. lia. }
  destruct (Z.ltb_spec (Z.of_nat (length (encode_bundle es)))
              (BUNDLE_HEADER_OFFSET + CRT_HEADER_OFFSET)) as [Hlt | _].
  { unfold BUNDLE_HEADER_OFFSET, CRT_HEADER_OFFSET in Hlt. lia. }
  assert (Ed : be16 (idx (encode_bundle es) 0) (idx (encode_bundle es) 1)
               mod 65536 = Z.of_nat (length es)).
  { unfold encode_bundle, enc16. cbn [app].
    change (idx (?a :: _) 0) with a. change (idx (_ :: ?b :: _) 1) with b.
    rewrite (be16_enc16 (Z.of_nat (length es)) _ _ ltac:(lia) eq_refl).
    apply Z.mod_small. lia. }
  rewrite Ed, Nat2Z.id. cbn [negb bundleBytes s_crt_bundle].
  pose proof (init_loop_encoded es (enc16 (Z.of_nat (length es))) Hs) as Hl.
  cbv zeta in Hl. fold (encode_bundle es) in Hl.
  change (Z.of_nat (length (enc16 (Z.of_nat (length es)))))
    with BUNDLE_HEADER_OFFSET in Hl.
  rewrite Hl.
  destruct (Z.gtb_spec (Z.of_nat (length (encode_bundle es)))
              (Z.of_nat (length (encode_bundle es)))); [lia | reflexivity].
Qed.

(** ** memcmp and the order on names *)

Lemma is_prefix_cons x a b : is_prefix (x :: a) (x :: b) <-> is_prefix a b.
Proof.
  unfold is_prefix. split; intros [t E]; exists t.
  - now injection E.
  - cbn. now rewrite E.
Qed.

Lemma memcmp_same_prefix n :
  forall t t', memcmp (n ++ t) (n ++ t') (length n) = Ok 0.
Proof.
  induction n as [| x n IH]; intros t t'; cbn; [reflexivity |].
  now rewrite Z.eqb_refl.
Qed.

Lemma memcmp_zero_prefix n :
  forall a t, memcmp a (n ++ t) (length n) = Ok 0 -> is_prefix n a.
Proof.
  induction n as [| x n IH]; intros a t; cbn.
  - intros _. now exists a.
  - destruct a as [| y a]; [discriminate |].
    destruct (Z.eqb_spec (u8 y) (u8 x)) as [E | N].
    + apply u8_inj in E. subst y. intros H. apply is_prefix_cons. eauto.
    + intros [= H]. lia.
Qed.

(** Two names of which neither is a prefix of the other differ at a
    position both have; [memcmp] stops there, with the sign of the
    lexicographic comparison, whatever follows the names in memory. *)
Lemma memcmp_lex a :
  forall b r r',
    ~ is_prefix a b -> ~ is_prefix b a ->
    exists c,
      memcmp (a ++ r) (b ++ r') (length b) = Ok c /\ c <> 0 /\
      (lex_compare a b = Lt -> c < 0) /\ (lex_compare a b = Gt -> c > 0).
Proof.
  induction a as [| x a IH]; intros b r r' Hab Hba.
  - exfalso. apply Hab. now exists b.
  - destruct b as [| y b]; [exfalso; apply Hba; now exists (x :: a) |].
    cbn. destruct (Z.eqb_spec (u8 x) (u8 y)) as [E | N].
    + pose proof (u8_inj _ _ E). subst y. rewrite Z.compare_refl.
      apply IH; rewrite <- (is_prefix_cons x); assumption.
    + exists (u8 x - u8 y). repeat split; try lia.
      * destruct (Z.compare_spec (u8 x) (u8 y)); intros; try discriminate; lia.
      * destruct (Z.compare_spec (u8 x) (u8 y)); intros; try discriminate; lia.
Qed.

Lemma lex_compare_refl a : lex_compare a a = Eq.
Proof. induction a as [| x a IH]; cbn; [| rewrite Z.compare_refl]; auto. Qed.

Lemma lex_compare_eq a : forall b, lex_compare a b = Eq -> a = b.
Proof.
  induction a as [| x a IH]; intros [| y b]; cbn; try discriminate; auto.
  destruct (Z.compare_spec (u8 x) (u8 y)) as [E | |]; try discriminate.
  intros H. apply u8_inj in E. subst. f_equal. auto.
Qed.

Lemma lex_compare_antisym a :
  forall b, lex_compare b a = CompOpp (lex_compare a b).
Proof.
  induction a as [| x a IH]; intros [| y b]; cbn; try reflexivity.
  rewrite (Z.compare_antisym (u8 x) (u8 y)).
  destruct (u8 x ?= u8 y); cbn; auto.
Qed.

(** A name strictly before [b] without being a prefix of it is unrelated,
    as a prefix, to every name from [b] on. *)
Lemma before_unrelated a :
  forall b c,
    lex_lt a b -> ~ is_prefix a b -> lex_le b c ->
    ~ is_prefix a c /\ ~ is_prefix c a.
Proof.
  unfold lex_lt, lex_le.
  induction a as [| x a IH]; intros b c Hab Hp Hbc.
  - exfalso. apply Hp. now exists b.
  - destruct b as [| y b]; [discriminate |].
    destruct c as [| z c]; [cbn in Hbc; congruence |].
    cbn in Hab, Hbc.
    destruct (Z.compare_spec (u8 x) (u8 y)) as [Exy | Lxy | Gxy];
      try discriminate;
      destruct (Z.compare_spec (u8 y) (u8 z)) as [Eyz | Lyz | Gyz];
      try congruence.
    + apply u8_inj in Exy, Eyz. subst y z.
      rewrite (is_prefix_cons x) in Hp. rewrite !(is_prefix_cons x). eauto.
    + split; intros [t [= E _]]; subst; lia.
    + split; intros [t [= E _]]; subst; lia.
    + split; intros [t [= E _]]; subst; lia.
Qed.

(** A name strictly after [b] is not a prefix of any name up to [b]. *)
Lemma after_not_prefix a :
  forall b c, lex_lt b a -> lex_le c b -> ~ is_prefix a c.
Proof.
  unfold lex_lt, lex_le.
  induction a as [| x a IH]; intros b c Hba Hcb.
  - destruct b; discriminate.
  - intros [t ->]. destruct b as [| y b]; [cbn in Hcb; congruence |].
    cbn in Hba, Hcb.
    destruct (Z.compare_spec (u8 x) (u8 y)) as [Exy | Lxy | Gxy];
      try congruence;
      destruct (Z.compare_spec (u8 y) (u8 x)) as [Eyx | Lyx | Gyx];
      try congruence; try lia.
    apply (IH b (a ++ t) Hba Hcb). now exists t.
Qed.

(** ** The search over a window of probes *)

Lemma quot_mid s e : 0 <= s -> s <= e -> s <= Z.quot (s + e) 2 <= e.
Proof.
  intros H0 H. rewrite Z.quot_div_nonneg by lia.
  split; [apply Z.div_le_lower_bound | apply Z.div_le_upper_bound]; lia.
Qed.

Lemma search_loop_not_found g table child fuel :
  forall start end_ middle name_len,
    0 <= start ->
    (start <= end_ -> start <= middle <= end_) ->
    end_ - start + 1 <= Z.of_nat fuel ->
    (forall i, start <= i <= end_ ->
       exists nl c, compare_candidate g table child i = Ok (nl, c) /\ c <> 0) ->
    exists m nl,
      search_loop g table child fuel start end_ middle name_len
      = Ok (false, m, nl).
Proof.
  induction fuel as [| fuel IH]; intros start end_ middle name_len H0 Hm Hf Hp;
    cbn [search_loop]; destruct (Z.leb_spec start end_) as [Hle | Hgt];
    eauto; [lia |].
  specialize (Hm Hle). destruct (Hp middle Hm) as (nl & c & -> & Hc).
  cbn [bind]. destruct (Z.eqb_spec c 0); [contradiction |].
  destruct (c <? 0).
  - apply IH; [lia | intros; apply quot_mid; lia | lia |].
    intros i Hi. apply Hp. lia.
  - apply IH; [lia | intros; apply quot_mid; lia | lia |].
    intros i Hi. apply Hp. lia.
Qed.

Lemma search_loop_found g table child j fuel :
  forall start end_ middle name_len,
    0 <= start ->
    (start <= end_ -> start <= middle <= end_) ->
    end_ - start + 1 <= Z.of_nat fuel ->
    start <= j <= end_ ->
    (forall i, start <= i <= end_ ->
       exists nl c, compare_candidate g table child i = Ok (nl, c) /\
                    (i < j -> 0 <= c) /\ (j < i -> c <= 0) /\
                    (i = j -> c = 0)) ->
    exists m nl,
      search_loop g table child fuel start end_ middle name_len
      = Ok (true, m, nl) /\
      start <= m <= end_ /\ compare_candidate g table child m = Ok (nl, 0).
Proof.
  induction fuel as [| fuel IH];
    intros start end_ middle name_len H0 Hm Hf Hj Hp;
    cbn [search_loop]; destruct (Z.leb_spec start end_) as [Hle | Hgt];
    try lia.
  specialize (Hm Hle).
  destruct (Hp middle Hm) as (nl & c & E & Hlt & Hgt & Heq). rewrite E.
  cbn [bind]. destruct (Z.eqb_spec c 0) as [-> | Hc].
  { exists middle, nl. auto. }
  destruct (Z.ltb_spec c 0).
  - destruct (IH start (middle - 1) (Z.quot (start + (middle - 1)) 2) nl)
      as (m & nl' & Es & Hr & Ec);
      [lia | intros; apply quot_mid; lia | lia | lia | |].
    + intros i Hi. apply Hp. lia.
    + exists m, nl'. repeat split; try assumption; lia.
  - destruct (IH (middle + 1) end_ (Z.quot (middle + 1 + end_) 2) nl)
      as (m & nl' & Es & Hr & Ec);
      [lia | intros; apply quot_mid; lia | lia | lia | |].
    + intros i Hi. apply Hp. lia.
    + exists m, nl'. repeat split; try assumption; lia.
Qed.

(** ** Probing an entry of a loaded, encoded bundle *)

Lemma table_at_nth table m q :
  nth_error table m = Some q -> table_at table (Z.of_nat m) = Ok q.
Proof.
  intros H. unfold table_at.
  destruct (Z.ltb_spec (Z.of_nat m) 0); [lia |]. now rewrite Nat2Z.id, H.
Qed.

Lemma probe_encoded es g0 child m name key :
  encodable es ->
  nth_error es m = Some (name, key) ->
  let g := bundle_state es g0 in
  let table := entry_offsets BUNDLE_HEADER_OFFSET es in
  (exists post,
     compare_candidate g table child (Z.of_nat m)
     = (c <- memcmp (p (issuer_raw child)) (name ++ post) (length name) ;;
        Ok (Z.of_nat (length name), c))) /\
  entry_name g table (Z.of_nat m) = Ok name /\
  found_key g table (Z.of_nat m) (Z.of_nat (length name)) = Ok key.
Proof.
  intros [HN Hs] Hm g table. subst g table.
  destruct (entry_offsets_nth es BUNDLE_HEADER_OFFSET m _ Hm)
    as (pre & post & Ec & Et).
  apply table_at_nth in Et.
  pose proof (proj1 (Forall_forall _ _) Hs _ (nth_error_In _ _ Hm)) as [Hn Hk].
  cbn [fst snd] in Hn, Hk.
  destruct (entry_layout (enc16 (Z.of_nat (length es)) ++ pre) name key post
              Hn Hk) as (_ & _ & L1 & L2 & M & S1 & S2).
  assert (Eb : bundleBytes (bundle_state es g0)
               = (enc16 (Z.of_nat (length es)) ++ pre)
                   ++ encode_entry (name, key) ++ post).
  { cbn [bundleBytes bundle_state]. unfold encode_bundle.
    now rewrite Ec, app_assoc. }
  assert (Eq : Z.of_nat (length (enc16 (Z.of_nat (length es)) ++ pre))
               = BUNDLE_HEADER_OFFSET + Z.of_nat (length pre)).
  { rewrite length_app. unfold BUNDLE_HEADER_OFFSET. cbn [enc16 length]. lia. }
  rewrite Eq in *.
  unfold compare_candidate, entry_name, found_key.
  rewrite Et, Eb. cbn [bind]. rewrite L1, L2. cbn [bind]. rewrite M, S1, S2.
  rewrite Nat2Z.id. repeat split.
  exists (key ++ post). reflexivity.
Qed.

Lemma StronglySorted_nth {A} (R : A -> A -> Prop) l :
  StronglySorted R l ->
  forall i j a b,
    (i < j)%nat -> nth_error l i = Some a -> nth_error l j = Some b -> R a b.
Proof.
  induction 1 as [| x l Hs IH Hall]; intros i j a b Hij Hi Hj.
  - destruct i; discriminate.
  - destruct j as [| j]; [lia |]. cbn in Hj. destruct i as [| i]; cbn in Hi.
    + injection Hi as <-.
      apply (proj1 (Forall_forall _ _) Hall), (nth_error_In _ _ Hj).
    + apply (IH i j); [lia | assumption..].
Qed.

Lemma issuer_memory (child : mbedtls_x509_crt) :
  exists rest, p (issuer_raw child) = buf_bytes (issuer_raw child) ++ rest.
Proof.
  exists (skipn (Z.to_nat (len (issuer_raw child))) (p (issuer_raw child))).
  unfold buf_bytes. now rewrite firstn_skipn.
Qed.

Lemma find_crt_bundle_state es g0 child :
  find_crt (bundle_state es g0) (entry_offsets BUNDLE_HEADER_OFFSET es) child
  = search_loop (bundle_state es g0) (entry_offsets BUNDLE_HEADER_OFFSET es)
      child (length es) 0 (Z.of_nat (length es) - 1)
      (Z.quot (Z.of_nat (length es) - 1 - 0) 2) 0.
Proof.
  unfold find_crt. cbn [bundle_state s_crt_bundle num_certs].
  now rewrite Nat2Z.id.
Qed.

Lemma slice_inv buf off n l :
  slice buf off n = Ok l ->
  Z.of_nat (length l) = n /\ exists t, mem_from buf off = l ++ t.
Proof.
  unfold slice, mem_from.
  destruct (Z.ltb_spec off 0); [discriminate |].
  destruct (Z.ltb_spec n 0); [discriminate |].
  destruct (Z.ltb_spec (Z.of_nat (length buf)) (off + n)); [discriminate |].
  cbn [orb]. intros [= <-]. split.
  - rewrite length_firstn, length_skipn. lia.
  - eexists. symmetry. apply firstn_skipn.
Qed.

(** ** Comparison over name_len bytes (C3) *)

(** C3. The comparison reads [name_len] bytes of the candidate and never
    the issuer's own length. When the certificate's issuer bytes are the
    candidate's stored subject name followed by at least one more byte,
    [memcmp] yields 0: the loop stops at that candidate with a match. *)
Theorem compare_candidate_matches_on_prefix (g : globals) (table : list Z)
    (child : mbedtls_x509_crt) (middle : Z) (name extra : list byte) :
  entry_name g table middle = Ok name ->
  buf_bytes (issuer_raw child) = name ++ extra ->
  extra <> [] ->
  compare_candidate g table child middle = Ok (Z.of_nat (length name), 0) /\
  (forall fuel start end_ name_len,
     start <= end_ ->
     search_loop g table child (S fuel) start end_ middle name_len
     = Ok (true, middle, Z.of_nat (length name))) /\
  (forall child',
     p (issuer_raw child') = p (issuer_raw child) ->
     compare_candidate g table child' middle
     = compare_candidate g table child middle).
Proof.
  intros Hname Hissuer _.
  assert (E : compare_candidate g table child middle
              = Ok (Z.of_nat (length name), 0)).
  { unfold entry_name in Hname. unfold compare_candidate.
    destruct (table_at table middle) as [q |]; [| discriminate].
    cbn [bind] in *.
    destruct (load_be16 (bundleBytes g) q) as [nl |]; [| discriminate].
    cbn [bind] in *.
    destruct (slice_inv _ _ _ _ Hname) as (Hlen & t & ->).
    destruct (issuer_memory child) as [rest ->].
    rewrite Hissuer, <- Hlen, Nat2Z.id, <- app_assoc, memcmp_same_prefix.
    reflexivity. }
  split; [exact E | split].
  - intros fuel start end_ nl Hle. cbn [search_loop].
    destruct (Z.leb_spec start end_); [| lia]. now rewrite E.
  - intros child' Hp. unfold compare_candidate. now rewrite Hp.
Qed.

(** ** Lookups in a sorted bundle (C2, C4) *)

Section Lookups.
Context {tls : mbedtls}.

(** C4, with the amendment on prefixes. In a loaded, sorted bundle the
    search ends with "not found" and the hook returns the fatal error when
    the issuer is strictly before the first subject name without being a
    prefix of it, or strictly after the last one while no subject name of
    the bundle is a prefix of the issuer. *)
Theorem lookup_outside_range (es : list (list byte * list byte))
    (g0 : globals) (child : mbedtls_x509_crt) (first last_ : list byte) :
  encodable es ->
  StronglySorted lex_le (names es) ->
  nth_error (names es) 0 = Some first ->
  nth_error (names es) (length es - 1) = Some last_ ->
  (lex_lt (buf_bytes (issuer_raw child)) first /\
   ~ is_prefix (buf_bytes (issuer_raw child)) first) \/
  (lex_lt last_ (buf_bytes (issuer_raw child)) /\
   forall n, In n (names es) -> ~ is_prefix n (buf_bytes (issuer_raw child))) ->
  let g := fst (init true (encode_bundle es) g0) in
  let table := entry_offsets BUNDLE_HEADER_OFFSET es in
  snd (init true (encode_bundle es) g0) = None /\
  crts (s_crt_bundle g) = Some table /\
  (exists m nl, find_crt g table child = Ok (false, m, nl)) /\
  (forall depth flags,
     flags_filtered flags = MBEDTLS_X509_BADCERT_NOT_TRUSTED ->
     MBEDTLS_ERR_X509_FATAL_ERROR <> 0 ->
     crtVerifyCallback g child depth flags
     = Ok (MBEDTLS_ERR_X509_FATAL_ERROR, flags, [])).
Proof.
  intros Henc Hsorted Hfirst Hlast Hout g table. subst g table.
  assert (Hne : es <> []) by (intros ->; discriminate).
  rewrite init_encode_bundle by assumption. cbn [fst snd].
  assert (Hfind : exists m nl,
             find_crt (bundle_state es g0)
               (entry_offsets BUNDLE_HEADER_OFFSET es) child
             = Ok (false, m, nl)).
  { rewrite find_crt_bundle_state.
    apply search_loop_not_found; [lia | | lia |].
    { intros. rewrite Z.sub_0_r. apply (quot_mid 0); lia. }
    intros i Hi.
    destruct (nth_error es (Z.to_nat i)) as [[n k] |] eqn:Ei.
    2: { apply nth_error_None in Ei. lia. }
    destruct (probe_encoded es g0 child _ _ _ Henc Ei) as ((post & Ec) & _).
    rewrite Z2Nat.id in Ec by lia. rewrite Ec.
    assert (Hn : nth_error (names es) (Z.to_nat i) = Some n).
    { unfold names. now rewrite nth_error_map, Ei. }
    assert (Hun : ~ is_prefix (buf_bytes (issuer_raw child)) n /\
                  ~ is_prefix n (buf_bytes (issuer_raw child))).
    { destruct Hout as [[Hlt Hnp] | [Hlt Hnp]].
      - apply (before_unrelated _ first); [assumption.. |].
        destruct (Z.to_nat i) as [| i'] eqn:Eqi.
        + rewrite Hfirst in Hn. injection Hn as <-.
          unfold lex_le. now rewrite lex_compare_refl.
        + apply (StronglySorted_nth _ _ Hsorted 0%nat (S i')); [lia | auto..].
      - split; [| apply Hnp, (nth_error_In _ _ Hn)].
        apply (after_not_prefix _ last_); [assumption |].
        destruct (Nat.eq_dec (Z.to_nat i) (length es - 1)) as [Eqi | Nqi].
        + rewrite Eqi, Hlast in Hn. injection Hn as <-.
          unfold lex_le. now rewrite lex_compare_refl.
        + apply (StronglySorted_nth _ _ Hsorted (Z.to_nat i) (length es - 1));
            [lia | auto..]. }
    destruct (issuer_memory child) as [rest ->].
    destruct (memcmp_lex _ n rest post (proj1 Hun) (proj2 Hun))
      as (c & -> & Hc & _).
    cbn [bind]. eauto. }
  repeat split; [exact Hfind |].
  intros depth flags Hf Hfatal. destruct Hfind as (m & nl & Hfind).
  rewrite crtVerifyCallback_unfold_trusted by exact Hf.
  cbn [bundle_state s_crt_bundle crts]. rewrite Hfind. cbn [bind].
  now rewrite (proj2 (Z.eqb_neq _ _) Hfatal).
Qed.

End Lookups.

Section RoundTrip.
Context {tls : mbedtls}.

(** C2, with the amendment on prefixes. For entries sorted by name, none of
    whose names is a proper prefix of another, the encoded bundle loads, and
    a lookup with issuer bytes equal to one of the names stops at an entry
    holding exactly that name (the entry itself when names are distinct); the
    bytes handed to the signature check are that entry's key, of the
    recorded length. *)
Theorem lookup_round_trip (es : list (list byte * list byte)) (g0 : globals)
    (j : nat) (name key : list byte) (child : mbedtls_x509_crt) :
  encodable es ->
  StronglySorted lex_le (names es) ->
  prefix_free es ->
  nth_error es j = Some (name, key) ->
  buf_bytes (issuer_raw child) = name ->
  let g := fst (init true (encode_bundle es) g0) in
  let table := entry_offsets BUNDLE_HEADER_OFFSET es in
  snd (init true (encode_bundle es) g0) = None /\
  crts (s_crt_bundle g) = Some table /\
  exists m key',
    nth_error es m = Some (name, key') /\
    find_crt g table child = Ok (true, Z.of_nat m, Z.of_nat (length name)) /\
    found_key g table (Z.of_nat m) (Z.of_nat (length name)) = Ok key' /\
    (NoDup (names es) -> m = j /\ key' = key) /\
    (forall depth flags,
       flags_filtered flags = MBEDTLS_X509_BADCERT_NOT_TRUSTED ->
       crtVerifyCallback g child depth flags
       = let '(ret, calls) := crtCheckCertificate child key' in
         if ret =? 0 then Ok (0, 0, calls)
         else Ok (MBEDTLS_ERR_X509_FATAL_ERROR, flags, calls)).
Proof.
  intros Henc Hsorted Hpf Hj Hissuer g table. subst g table.
  assert (Hne : es <> []) by (intros ->; destruct j; discriminate).
  rewrite init_encode_bundle by assumption. cbn [fst snd].
  repeat split.
  assert (Hjlt : (j < length es)%nat)
    by (apply nth_error_Some; congruence).
  assert (Hnj : nth_error (names es) j = Some name)
    by (unfold names; now rewrite nth_error_map, Hj).
  destruct (issuer_memory child) as [rest Hmem]. rewrite Hissuer in Hmem.
  (* every probe is defined and ordered around slot j *)
  assert (Hprobe : forall i n k,
             nth_error es i = Some (n, k) ->
             exists c,
               compare_candidate (bundle_state es g0)
                 (entry_offsets BUNDLE_HEADER_OFFSET es) child (Z.of_nat i)
               = Ok (Z.of_nat (length n), c) /\
               (c = 0 <-> n = name) /\
               ((i < j)%nat -> 0 <= c) /\ ((j < i)%nat -> c <= 0)).
  { intros i n k Ei.
    destruct (probe_encoded es g0 child _ _ _ Henc Ei) as ((post & ->) & _).
    rewrite Hmem.
    assert (Hni : nth_error (names es) i = Some n)
      by (unfold names; now rewrite nth_error_map, Ei).
    destruct (lex_compare name n) eqn:Ecmp.
    - apply lex_compare_eq in Ecmp. subst n.
      rewrite memcmp_same_prefix. cbn [bind]. exists 0.
      repeat split; lia.
    - assert (Hd : n <> name)
        by (intros ->; rewrite lex_compare_refl in Ecmp; discriminate).
      assert (Hu1 : ~ is_prefix name n).
      { intros Hp. apply Hd. symmetry.
        apply Hpf; eauto using nth_error_In. }
      assert (Hu2 : ~ is_prefix n name).
      { intros Hp. apply Hd. apply Hpf; eauto using nth_error_In. }
      destruct (memcmp_lex name n rest post Hu1 Hu2) as (c & -> & Hc & Hlt & _).
      cbn [bind]. exists c. specialize (Hlt Ecmp).
      repeat split; try lia; try congruence.
      intros Hij. exfalso.
      pose proof (StronglySorted_nth _ _ Hsorted i j n name Hij Hni Hnj) as Hle.
      unfold lex_le in Hle. rewrite (lex_compare_antisym name n), Ecmp in Hle.
      now apply Hle.
    - assert (Hd : n <> name)
        by (intros ->; rewrite lex_compare_refl in Ecmp; discriminate).
      assert (Hu1 : ~ is_prefix name n).
      { intros Hp. apply Hd. symmetry.
        apply Hpf; eauto using nth_error_In. }
      assert (Hu2 : ~ is_prefix n name).
      { intros Hp. apply Hd. apply Hpf; eauto using nth_error_In. }
      destruct (memcmp_lex name n rest post Hu1 Hu2) as (c & -> & Hc & _ & Hgt).
      cbn [bind]. exists c. specialize (Hgt Ecmp).
      repeat split; try lia; try congruence.
      intros Hji. exfalso.
      pose proof (StronglySorted_nth _ _ Hsorted j i name n Hji Hnj Hni) as Hle.
      unfold lex_le in Hle. now apply Hle. }
  (* the search keeps slot j in its window *)
  destruct (search_loop_found (bundle_state es g0)
              (entry_offsets BUNDLE_HEADER_OFFSET es) child (Z.of_nat j)
              (length es) 0 (Z.of_nat (length es) - 1)
              (Z.quot (Z.of_nat (length es) - 1 - 0) 2) 0)
    as (m & nl & Hs & Hm & Hc); [lia | | lia | lia | |].
  { intros. rewrite Z.sub_0_r. apply (quot_mid 0); lia. }
  { intros i Hi.
    destruct (nth_error es (Z.to_nat i)) as [[n k] |] eqn:Ei.
    2: { apply nth_error_None in Ei. lia. }
    destruct (Hprobe _ _ _ Ei) as (c & Ec & Hz & Hlo & Hhi).
    rewrite Z2Nat.id in Ec by lia.
    exists (Z.of_nat (length n)), c. repeat split; try assumption.
    - intros. apply Hlo. lia.
    - intros. apply Hhi. lia.
    - intros ->. apply Hz. rewrite Nat2Z.id in Ei. congruence. }
  destruct (nth_error es (Z.to_nat m)) as [[n k] |] eqn:Em.
  2: { apply nth_error_None in Em. lia. }
  destruct (Hprobe _ _ _ Em) as (c & Ec & Hz & _).
  rewrite Z2Nat.id in Ec by lia. rewrite Ec in Hc.
  injection Hc as Hnl Hc0. assert (n = name) by now apply Hz. subst n nl.
  destruct (probe_encoded es g0 child _ _ _ Henc Em) as (_ & _ & Hkey).
  rewrite Z2Nat.id in Hkey by lia.
  exists (Z.to_nat m), k. rewrite Z2Nat.id by lia.
  rewrite find_crt_bundle_state. repeat split; try assumption.
  - apply (proj1 (NoDup_nth_error (names es))); [assumption | |].
    + unfold names. rewrite length_map. apply nth_error_Some. congruence.
    + unfold names. rewrite !nth_error_map, Em, Hj. reflexivity.
  - assert (Z.to_nat m = j).
    { apply (proj1 (NoDup_nth_error (names es))); [assumption | |].
      + unfold names. rewrite length_map. apply nth_error_Some. congruence.
      + unfold names. rewrite !nth_error_map, Em, Hj. reflexivity. }
    subst j. congruence.
  - intros depth flags Hf.
    rewrite crtVerifyCallback_unfold_trusted by exact Hf.
    cbn [bundle_state s_crt_bundle crts].
    rewrite find_crt_bundle_state, Hs. cbn [bind]. rewrite Hkey. cbn [bind].
    destruct (crtCheckCertificate child k) as [ret calls]. reflexivity.
Qed.

End RoundTrip.

(** The claim of C2 fails when a name is a proper prefix of another: with
    the sorted entries "A" (key "k") and "AB" (key "l"), a lookup for the
    issuer "AB" stops at the entry "A" and hands the key "k" to the
    signature check, not the key of "AB". *)
Lemma lookup_AB_finds_A :
  let g := fst (init true (encode_bundle entries_A_AB) globals0) in
  StronglySorted lex_le (names entries_A_AB) /\
  snd (init true (encode_bundle entries_A_AB) globals0) = None /\
  nth_error entries_A_AB 1 = Some (buf_bytes (issuer_raw crt_by_AB), [x6c]) /\
  crts (s_crt_bundle g) = Some [2; 8] /\
  find_crt g [2; 8] crt_by_AB = Ok (true, 0, 1) /\
  entry_name g [2; 8] 0 = Ok [x41] /\
  found_key g [2; 8] 0 1 = Ok [x6b] /\
  ~ (exists m key',
       nth_error entries_A_AB m = Some (buf_bytes (issuer_raw crt_by_AB), key') /\
       find_crt g [2; 8] crt_by_AB = Ok (true, Z.of_nat m, 2)).
Proof.
  cbv zeta. repeat split; try reflexivity.
  - repeat constructor; cbv; discriminate.
  - intros (m & key' & _ & H). vm_compute in H. discriminate H.
Qed.

(** The claim of C4 fails for an issuer after the last name that has a
    bundle name as a prefix: with the bundle holding "A" alone, the issuer
    "AB" is strictly after "A", yet the search finds slot 0 and the hook
    accepts the certificate. *)
Lemma lookup_AB_after_last_is_found :
  lex_lt [x41] (buf_bytes (issuer_raw crt_by_AB)) /\
  init true (encode_bundle entries_A) globals0 = (loaded_A, None) /\
  find_crt loaded_A [2] crt_by_AB = Ok (true, 0, 1) /\
  ~ (exists m nl, find_crt loaded_A [2] crt_by_AB = Ok (false, m, nl)) /\
  exists calls,
    @crtVerifyCallback toy_mbedtls loaded_A crt_by_AB 0 8 = Ok (0, 0, calls).
Proof.
  repeat split; try reflexivity.
  - intros (m & nl & H). vm_compute in H. discriminate H.
  - eexists. vm_compute. reflexivity.
Qed.

(** ** The hook is defined on a loaded bundle *)

Lemma byte_at_idx buf i :
  0 <= i < Z.of_nat (length buf) -> byte_at buf i = Ok (idx buf i).
Proof.
  intros Hi. unfold byte_at, idx.
  destruct (Z.ltb_spec i 0); [lia |].
  now rewrite (nth_error_nth' buf x00) by lia.
Qed.

Lemma load_be16_idx buf off :
  0 <= off -> off + 2 <= Z.of_nat (length buf) ->
  load_be16 buf off = Ok (be16 (idx buf off) (idx buf (off + 1))).
Proof.
  intros H0 H2. unfold load_be16. now rewrite !byte_at_idx by lia.
Qed.

Lemma slice_defined buf off n :
  0 <= off -> 0 <= n -> off + n <= Z.of_nat (length buf) ->
  exists l, slice buf off n = Ok l.
Proof.
  intros H0 Hn Hl. unfold slice.
  destruct (Z.ltb_spec off 0); [lia |].
  destruct (Z.ltb_spec n 0); [lia |].
  destruct (Z.ltb_spec (Z.of_nat (length buf)) (off + n)); [lia |].
  cbn [orb]. eauto.
Qed.

Lemma memcmp_defined n :
  forall s1 s2,
    (n <= length s1)%nat -> (n <= length s2)%nat ->
    exists c, memcmp s1 s2 n = Ok c.
Proof.
  induction n as [| n IH]; intros s1 s2 H1 H2; cbn [memcmp]; [eauto |].
  destruct s1 as [| a s1]; [cbn in H1; lia |].
  destruct s2 as [| b s2]; [cbn in H2; lia |].
  cbn in H1, H2. destruct (u8 a =? u8 b); [apply IH; lia | eauto].
Qed.

(** What an accepted load leaves in the statics: the candidate bytes, the
    table of cursors, and every declared entry inside the buffer. *)
Lemma init_success_inv calloc_ok x g0 g :
  init calloc_ok x g0 = (g, None) ->
  let n := Z.to_nat (declared_certs x) in
  bundleBytes g = x /\
  crts (s_crt_bundle g) = Some (map (cursor x) (seq 0 n)) /\
  num_certs (s_crt_bundle g) = declared_certs x /\
  forall k, (k < n)%nat ->
    BUNDLE_HEADER_OFFSET <= cursor x k /\
    cursor x (S k) <= Z.of_nat (length x).
Proof.
  intros Hinit n.
  destruct calloc_ok.
  2: { unfold init in Hinit. destruct (_ <? _); discriminate. }
  rewrite init_unfold in Hinit.
  destruct (Z.of_nat (length x) <? 6); [discriminate |]. cbv zeta in Hinit.
  fold n in Hinit.
  destruct (init_loop x (Z.of_nat (length x)) n (cursor x 0))
    as [[table cur] |] eqn:El; [| discriminate].
  destruct (init_loop_cursor_inv _ _ _ _ _ _ El) as (-> & -> & Hfit).
  cbn [Nat.add] in *.
  destruct (Z.gtb_spec (cursor x n) (Z.of_nat (length x))) as [| Hend];
    [discriminate |].
  injection Hinit as <-. cbn [bundleBytes s_crt_bundle crts num_certs].
  repeat split.
  - clear. induction k as [| k IH]; [cbn; lia |].
    pose proof (cursor_step_le x k). unfold CRT_HEADER_OFFSET in *. lia.
  - destruct (Nat.eq_dec (S k) n) as [<- | Hne]; [exact Hend |].
    pose proof (Hfit (S k) ltac:(lia)). unfold CRT_HEADER_OFFSET in *. lia.
Qed.

(** Every slot of a loaded bundle designates a name and a key inside
    [bundleBytes]. *)
Lemma loaded_entry_defined calloc_ok x g0 g table m :
  init calloc_ok x g0 = (g, None) ->
  crts (s_crt_bundle g) = Some table ->
  0 <= m < num_certs (s_crt_bundle g) ->
  exists name key,
    entry_name g table m = Ok name /\
    found_key g table m (Z.of_nat (length name)) = Ok key /\
    forall child,
      (length name <= length (p (issuer_raw child)))%nat ->
      exists c, compare_candidate g table child m
                = Ok (Z.of_nat (length name), c).
Proof.
  intros Hinit Hcrts Hm.
  destruct (init_success_inv _ _ _ _ Hinit) as (Eb & Ec & En & Hfit).
  rewrite Ec in Hcrts. injection Hcrts as <-. rewrite En in Hm.
  specialize (Hfit (Z.to_nat m) ltac:(lia)). destruct Hfit as [Hlo Hhi].
  cbn [cursor] in Hhi. set (q := cursor x (Z.to_nat m)) in *.
  pose proof (be16_range (idx x q) (idx x (q + 1))) as Rn.
  pose proof (be16_range (idx x (q + 2)) (idx x (q + 3))) as Rk.
  unfold BUNDLE_HEADER_OFFSET, CRT_HEADER_OFFSET in *.
  assert (Et : table_at (map (cursor x)
                           (seq 0 (Z.to_nat (declared_certs x)))) m = Ok q).
  { unfold table_at. destruct (Z.ltb_spec m 0); [lia |].
    rewrite nth_error_map, nth_error_seq.
    destruct (Nat.ltb_spec (Z.to_nat m) (Z.to_nat (declared_certs x)));
      [reflexivity | lia]. }
  destruct (slice_defined x (q + 4) (be16 (idx x q) (idx x (q + 1))))
    as [name Hname]; [lia.. |].
  destruct (slice_inv _ _ _ _ Hname) as (Hlen & t & Hmem).
  destruct (slice_defined x (q + 4 + be16 (idx x q) (idx x (q + 1)))
              (be16 (idx x (q + 2)) (idx x (q + 3))))
    as [key Hkey]; [lia.. |].
  exists name, key.
  unfold entry_name, found_key, compare_candidate. rewrite Et, Eb. cbn [bind].
  rewrite !load_be16_idx by lia. cbn [bind].
  replace (q + 2 + 1) with (q + 3) by lia.
  unfold CRT_HEADER_OFFSET. rewrite Hlen. repeat split; try assumption.
  intros child Hp. rewrite Hmem, <- Hlen, Nat2Z.id.
  destruct (memcmp_defined (length name) (p (issuer_raw child)) (name ++ t))
    as [c ->]; [lia | rewrite length_app; lia |].
  cbn [bind]. eauto.
Qed.

Lemma search_loop_defined g table child fuel :
  forall start end_ middle name_len,
    0 <= start ->
    (start <= end_ -> start <= middle <= end_) ->
    end_ - start + 1 <= Z.of_nat fuel ->
    (forall i, start <= i <= end_ ->
       exists nl c, compare_candidate g table child i = Ok (nl, c)) ->
    exists found m nl,
      search_loop g table child fuel start end_ middle name_len
      = Ok (found, m, nl) /\
      (found = true ->
       start <= m <= end_ /\ compare_candidate g table child m = Ok (nl, 0)).
Proof.
  induction fuel as [| fuel IH]; intros start end_ middle name_len H0 Hm Hf Hp;
    cbn [search_loop]; destruct (Z.leb_spec start end_) as [Hle | Hgt];
    try lia.
  1, 3: exists false, middle, name_len; split; [reflexivity | discriminate].
  specialize (Hm Hle). destruct (Hp middle Hm) as (nl & c & E). rewrite E.
  cbn [bind]. destruct (Z.eqb_spec c 0) as [-> | Hc].
  { exists true, middle, nl. auto. }
  destruct (c <? 0).
  - destruct (IH start (middle - 1) (Z.quot (start + (middle - 1)) 2) nl)
      as (f & m & nl' & Es & Hr);
      [lia | intros; apply quot_mid; lia | lia | intros; apply Hp; lia |].
    exists f, m, nl'. split; [exact Es |].
    intros Hf'. destruct (Hr Hf'). split; [lia | assumption].
  - destruct (IH (middle + 1) end_ (Z.quot (middle + 1 + end_) 2) nl)
      as (f & m & nl' & Es & Hr);
      [lia | intros; apply quot_mid; lia | lia | intros; apply Hp; lia |].
    exists f, m, nl'. split; [exact Es |].
    intros Hf'. destruct (Hr Hf'). split; [lia | assumption].
Qed.

Section Definedness.
Context {tls : mbedtls}.

(** After an accepted load the hook always returns: no read leaves the
    bundle, and none leaves the issuer's memory as long as that memory is
    at least as long as the names it is compared with. *)
Lemma crtVerifyCallback_defined calloc_ok x g0 g child depth flags :
  init calloc_ok x g0 = (g, None) ->
  (forall table m name,
     crts (s_crt_bundle g) = Some table ->
     entry_name g table m = Ok name ->
     (length name <= length (p (issuer_raw child)))%nat) ->
  exists ret fl calls,
    crtVerifyCallback g child depth flags = Ok (ret, fl, calls).
Proof.
  intros Hinit Hmem. unfold crtVerifyCallback.
  destruct (negb _); [eauto |].
  destruct (crts (s_crt_bundle g)) as [table |] eqn:Ecrts; [| eauto].
  assert (Hprobe : forall i, 0 <= i <= num_certs (s_crt_bundle g) - 1 ->
            exists nl c, compare_candidate g table child i = Ok (nl, c)).
  { intros i Hi.
    destruct (loaded_entry_defined _ _ _ _ table i Hinit Ecrts ltac:(lia))
      as (name & key & Hn & _ & Hc).
    destruct (Hc child (Hmem _ _ _ eq_refl Hn)) as [c ->]. eauto. }
  destruct (search_loop_defined g table child
              (Z.to_nat (num_certs (s_crt_bundle g))) 0
              (num_certs (s_crt_bundle g) - 1)
              (Z.quot (num_certs (s_crt_bundle g) - 1 - 0) 2) 0)
    as (found & m & nl & Es & Hr); [lia | | lia | exact Hprobe |].
  { intros. rewrite Z.sub_0_r. apply (quot_mid 0); lia. }
  unfold find_crt. rewrite Es. cbn [bind]. destruct found.
  - destruct (Hr eq_refl) as [Hm Hc].
    destruct (loaded_entry_defined _ _ _ _ table m Hinit Ecrts ltac:(lia))
      as (name & key & Hn & Hk & Hc').
    destruct (Hc' child (Hmem _ _ _ eq_refl Hn)) as [c Hc''].
    rewrite Hc'' in Hc. injection Hc as <- _. rewrite Hk. cbn [bind].
    destruct (crtCheckCertificate child key) as [ret calls].
    destruct (ret =? 0); eauto.
  - cbn [bind]. destruct (_ =? 0); eauto.
Qed.

End Definedness.

(** ** The theorems at concrete inputs *)

Lemma encodable_entries_ABC : encodable entries_ABC.
Proof. split; [cbn; lia | repeat constructor; cbn; lia]. Defined.

Lemma sorted_entries_ABC : StronglySorted lex_le (names entries_ABC).
Proof. repeat constructor; cbv; discriminate. Defined.

Lemma prefix_free_entries_ABC : prefix_free entries_ABC.
Proof.
  intros a b Ha Hb [t E]. cbn in Ha, Hb.
  destruct Ha as [<- | [<- | [<- | []]]];
    destruct Hb as [<- | [<- | [<- | []]]];
    try reflexivity; discriminate E.
Defined.

(** "Untrusted" together with "expired" (0x09) is deferred. *)
Lemma crtVerifyCallback_defers_witness :
  @flags_filtered toy_mbedtls 0x09
    <> @MBEDTLS_X509_BADCERT_NOT_TRUSTED toy_mbedtls /\
  @crtVerifyCallback toy_mbedtls loaded_A crt_by_A 0 0x09 = Ok (0, 0x09, []).
Proof.
  assert (H : @flags_filtered toy_mbedtls 0x09
              <> @MBEDTLS_X509_BADCERT_NOT_TRUSTED toy_mbedtls)
    by (vm_compute; discriminate).
  split; [exact H |].
  exact (proj1 (@crtVerifyCallback_defers toy_mbedtls loaded_A crt_by_A 0
                  0x09 H)).
Defined.

(** Before any load, flags 0 are deferred and flags "untrusted" are fatal. *)
Lemma crtVerifyCallback_defers_before_bundle_test_witness :
  crts (s_crt_bundle globals0) = None /\
  @crtVerifyCallback toy_mbedtls globals0 crt_by_A 0 0 = Ok (0, 0, []) /\
  @crtVerifyCallback toy_mbedtls globals0 crt_by_A 0 8 = Ok (-0x3000, 8, []).
Proof.
  assert (Hf : @MBEDTLS_ERR_X509_FATAL_ERROR toy_mbedtls <> 0)
    by (vm_compute; discriminate).
  split; [reflexivity | split].
  - apply (proj1 (@crtVerifyCallback_defers_before_bundle_test toy_mbedtls
                    globals0 crt_by_A 0 0 eq_refl Hf)).
    vm_compute. discriminate.
  - apply (proj1 (proj2 (@crtVerifyCallback_defers_before_bundle_test
                           toy_mbedtls globals0 crt_by_A 0 8 eq_refl Hf))).
    reflexivity.
Defined.

(** With "A" loaded, the certificate issued by "A" is accepted, never
    half-way: any non-zero return is the fatal error with flags intact. *)
Lemma crtVerifyCallback_all_or_nothing_witness :
  @flags_filtered toy_mbedtls 8 = @MBEDTLS_X509_BADCERT_NOT_TRUSTED toy_mbedtls /\
  @crtVerifyCallback toy_mbedtls loaded_A crt_by_A 0 8 <> Fail OutOfFuel /\
  (forall ret fl calls,
     @crtVerifyCallback toy_mbedtls loaded_A crt_by_A 0 8 = Ok (ret, fl, calls) ->
     ret <> 0 -> ret = -0x3000 /\ fl = 8).
Proof.
  assert (Hf : @MBEDTLS_ERR_X509_FATAL_ERROR toy_mbedtls <> 0)
    by (vm_compute; discriminate).
  pose proof (@crtVerifyCallback_all_or_nothing toy_mbedtls loaded_A crt_by_A
                0 8 eq_refl Hf) as H.
  split; [reflexivity | split].
  - exact (proj1 H).
  - exact (proj1 (proj2 (proj2 H))).
Defined.

(** The flag survives a rejected load, a failed allocation, a verification
    and an attach. *)
Lemma shouldVerify_monotone_witness :
  shouldVerify loaded_A = true /\
  shouldVerify
    (run loaded_A
       [op_init true bundle_overlong; op_init false bundle_A;
        op_crtVerifyCallback crt_by_A 0 8;
        op_attach {| ca_chain_is_dummy := false;
                     f_vrfy_is_crtVerifyCallback := false |};
        op_shouldVerify]) = true.
Proof.
  split; [reflexivity |].
  apply (proj1 (shouldVerify_monotone loaded_A eq_refl)).
Defined.

(** The issuer "AB" against the stored name "A". *)
Lemma compare_candidate_matches_on_prefix_witness :
  entry_name loaded_A [2] 0 = Ok [x41] /\
  buf_bytes (issuer_raw crt_by_AB) = [x41] ++ [x42] /\
  compare_candidate loaded_A [2] crt_by_AB 0 = Ok (1, 0).
Proof.
  split; [reflexivity | split; [reflexivity |]].
  apply (proj1 (compare_candidate_matches_on_prefix loaded_A [2] crt_by_AB 0
                  [x41] [x42] eq_refl eq_refl ltac:(discriminate))).
Defined.

(** The issuer "D" in the bundle "A", "B", "C". *)
Lemma lookup_outside_range_witness :
  lex_lt [x43] (buf_bytes (issuer_raw crt_by_D)) /\
  exists m nl,
    find_crt (fst (init true (encode_bundle entries_ABC) globals0))
      (entry_offsets BUNDLE_HEADER_OFFSET entries_ABC) crt_by_D
    = Ok (false, m, nl).
Proof.
  split; [reflexivity |].
  refine (proj1 (proj2 (proj2
            (@lookup_outside_range toy_mbedtls entries_ABC globals0 crt_by_D
               [x41] [x43] encodable_entries_ABC sorted_entries_ABC
               eq_refl eq_refl _)))).
  right. split; [reflexivity |].
  intros n Hn [t E]. cbn in Hn.
  destruct Hn as [<- | [<- | [<- | []]]]; discriminate E.
Defined.

(** The issuer "B" in the bundle "A", "B", "C" finds slot 1. *)
Lemma lookup_round_trip_witness :
  nth_error entries_ABC 1 = Some ([x42], [x6b]) /\
  exists m key',
    nth_error entries_ABC m = Some ([x42], key') /\
    find_crt (fst (init true (encode_bundle entries_ABC) globals0))
      (entry_offsets BUNDLE_HEADER_OFFSET entries_ABC) crt_by_B
    = Ok (true, Z.of_nat m, 1).
Proof.
  split; [reflexivity |].
  destruct (proj2 (proj2
              (@lookup_round_trip toy_mbedtls entries_ABC globals0 1 [x42]
                 [x6b] crt_by_B encodable_entries_ABC sorted_entries_ABC
                 prefix_free_entries_ABC eq_refl eq_refl)))
    as (m & key' & Hm & Hfind & _).
  exists m, key'. split; [exact Hm | exact Hfind].
Defined.

(** A two-entry bundle accepted by [init]: the walk visits offsets 2 and 8
    and ends at the buffer length 15. *)
Lemma init_validates_structure_witness :
  well_formed (encode_bundle entries_A_AB) /\
  init true (encode_bundle entries_A_AB) globals0
  = (installed (encode_bundle entries_A_AB) globals0, None) /\
  crts (s_crt_bundle (installed (encode_bundle entries_A_AB) globals0))
  = Some [2; 8] /\
  cursor (encode_bundle entries_A_AB) 2 = 15.
Proof.
  assert (W : well_formed (encode_bundle entries_A_AB)).
  { unfold well_formed.
    change (Z.to_nat (declared_certs (encode_bundle entries_A_AB))) with 2%nat.
    split; [now cbv | split; [| reflexivity]].
    intros [| [| i]] Hi; [now cbv | now cbv | lia]. }
  split; [exact W | split; [| split; vm_compute; reflexivity]].
  apply (proj2 (proj2 (proj2 (proj2
           (init_validates_structure (encode_bundle entries_A_AB) globals0))) W
           ltac:(cbv; lia))).
Defined.

(** * Further properties of the bundle store *)

(** ** What a load can change *)

(** X1. When [calloc] fails, a buffer of at least 6 bytes is rejected
    with "Unable to allocate memory for bundle" before anything is copied:
    every static is exactly as before, whatever the buffer holds. The size
    test comes first, so a shorter buffer is reported as an invalid bundle
    even then. *)
Theorem init_allocation_failure (x : list byte) (g : globals) :
  (6 <= Z.of_nat (length x) ->
   init false x g = (g, Some AllocationFailure)) /\
  (Z.of_nat (length x) < 6 ->
   init false x g = (g, Some InvalidBundle)).
Proof.
  unfold init. change (BUNDLE_HEADER_OFFSET + CRT_HEADER_OFFSET) with 6.
  split; intros H; destruct (Z.ltb_spec (Z.of_nat (length x)) 6);
    try lia; reflexivity.
Qed.

Lemma init_failure_frame calloc_ok x g g' e :
  init calloc_ok x g = (g', Some e) ->
  s_crt_bundle g' = s_crt_bundle g /\
  s_should_verify_certs g' = s_should_verify_certs g /\
  (bundleBytes g' = bundleBytes g \/ bundleBytes g' = x).
Proof.
  unfold init.
  destruct (_ <? _); [intros [= <- _]; auto |].
  destruct calloc_ok; cbn [negb]; [| intros [= <- _]; auto].
  cbn [bundleBytes s_crt_bundle].
  destruct (init_loop _ _ _ _) as [[table cur] |];
    [| intros [= <- _]; cbn; auto].
  destruct (cur >? _); [intros [= <- _]; cbn; auto | discriminate].
Qed.

(** X2. A load that throws leaves the table, the entry count and the
    verification flag as they were; the only static it can have changed is
    [bundleBytes], and then to the rejected candidate. *)
Theorem init_failure_changes_only_bundleBytes (calloc_ok : bool)
    (x : list byte) (g g' : globals) (e : runtime_error) :
  init calloc_ok x g = (g', Some e) ->
  s_crt_bundle g' = s_crt_bundle g /\
  s_should_verify_certs g' = s_should_verify_certs g /\
  (bundleBytes g' = bundleBytes g \/ bundleBytes g' = x).
Proof. apply init_failure_frame. Qed.

Lemma init_failure_changes_only_bundleBytes_witness :
  init true bundle_overlong loaded_A
  = (fst (init true bundle_overlong loaded_A), Some InvalidBundle) /\
  s_crt_bundle (fst (init true bundle_overlong loaded_A))
  = s_crt_bundle loaded_A.
Proof.
  split; [reflexivity |].
  exact (proj1 (init_failure_changes_only_bundleBytes true bundle_overlong
                  loaded_A _ InvalidBundle eq_refl)).
Defined.

Lemma compare_candidate_ext g g' table child middle :
  bundleBytes g = bundleBytes g' ->
  compare_candidate g table child middle
  = compare_candidate g' table child middle.
Proof. intros E. unfold compare_candidate. now rewrite E. Qed.

Lemma search_loop_ext g g' table child fuel :
  bundleBytes g = bundleBytes g' ->
  forall start end_ middle name_len,
    search_loop g table child fuel start end_ middle name_len
    = search_loop g' table child fuel start end_ middle name_len.
Proof.
  intros E. induction fuel as [| fuel IH]; intros start end_ middle name_len;
    cbn [search_loop]; [reflexivity |].
  rewrite (compare_candidate_ext g g' _ _ _ E).
  destruct (start <=? end_); [| reflexivity].
  destruct (compare_candidate g' table child middle) as [[nl c] |];
    [| reflexivity].
  cbn [bind]. now rewrite !IH.
Qed.

Section Reload.
Context {tls : mbedtls}.

(** The hook reads the statics through the bytes, the table and the count
    only. *)
Lemma crtVerifyCallback_ext g g' crt depth flags :
  bundleBytes g = bundleBytes g' ->
  crts (s_crt_bundle g) = crts (s_crt_bundle g') ->
  num_certs (s_crt_bundle g) = num_certs (s_crt_bundle g') ->
  crtVerifyCallback g crt depth flags = crtVerifyCallback g' crt depth flags.
Proof.
  intros Eb Ec En. unfold crtVerifyCallback, find_crt, found_key.
  rewrite Ec, En, Eb.
  destruct (negb _); [reflexivity |].
  destruct (crts (s_crt_bundle g')) as [table |]; [| reflexivity].
  now rewrite (search_loop_ext g g' table crt _ Eb).
Qed.

(** X3. A load does not look at the store it replaces: whether it throws,
    and with which error, depends on the candidate and on the allocation
    only, and after an accepted load the bytes, the table and the count are
    those of the candidate, so that every later verification answers the
    same whatever bundle was active before. *)
Theorem init_replaces_store (calloc_ok : bool) (x : list byte)
    (g1 g2 : globals) :
  snd (init calloc_ok x g1) = snd (init calloc_ok x g2) /\
  (snd (init calloc_ok x g1) = None ->
   bundleBytes (fst (init calloc_ok x g1)) = x /\
   s_should_verify_certs (fst (init calloc_ok x g1)) = true /\
   crts (s_crt_bundle (fst (init calloc_ok x g1)))
   = crts (s_crt_bundle (fst (init calloc_ok x g2))) /\
   num_certs (s_crt_bundle (fst (init calloc_ok x g1)))
   = num_certs (s_crt_bundle (fst (init calloc_ok x g2))) /\
   forall crt depth flags,
     crtVerifyCallback (fst (init calloc_ok x g1)) crt depth flags
     = crtVerifyCallback (fst (init calloc_ok x g2)) crt depth flags).
Proof.
  assert (H : snd (init calloc_ok x g1) = snd (init calloc_ok x g2) /\
              (snd (init calloc_ok x g1) = None ->
               bundleBytes (fst (init calloc_ok x g1)) = x /\
               bundleBytes (fst (init calloc_ok x g2)) = x /\
               s_should_verify_certs (fst (init calloc_ok x g1)) = true /\
               crts (s_crt_bundle (fst (init calloc_ok x g1)))
               = crts (s_crt_bundle (fst (init calloc_ok x g2))) /\
               num_certs (s_crt_bundle (fst (init calloc_ok x g1)))
               = num_certs (s_crt_bundle (fst (init calloc_ok x g2))))).
  { unfold init.
    destruct (_ <? _); [split; [reflexivity | discriminate] |].
    destruct calloc_ok; cbn [negb]; [| split; [reflexivity | discriminate]].
    cbn [bundleBytes s_crt_bundle].
    destruct (init_loop _ _ _ _) as [[table cur] |];
      [| split; [reflexivity | discriminate]].
    destruct (cur >? _); [split; [reflexivity | discriminate] |].
    cbn [fst snd bundleBytes s_crt_bundle crts num_certs
           s_should_verify_certs].
    repeat split. }
  destruct H as [H1 H2]. split; [exact H1 |].
  intros Hok. destruct (H2 Hok) as (B1 & B2 & F & C & N).
  repeat split; try assumption.
  intros crt depth flags. apply crtVerifyCallback_ext; congruence.
Qed.

End Reload.

(** ** Consistency of every reachable store *)

Lemma init_loop_length bytes e n :
  forall cur table last,
    init_loop bytes e n cur = Some (table, last) -> length table = n.
Proof.
  induction n as [| n IH]; intros cur table last; cbn [init_loop].
  - now intros [= <- _].
  - destruct (_ >? _); [discriminate |].
    destruct (init_loop bytes e n _) as [[rest l] |] eqn:E; [| discriminate].
    intros [= <- _]. cbn. f_equal. eauto.
Qed.

Lemma init_keeps_consistent calloc_ok x g :
  store_consistent g -> store_consistent (fst (init calloc_ok x g)).
Proof.
  intros Hg. destruct (init calloc_ok x g) as [g' [e |]] eqn:E; cbn [fst].
  - destruct (init_failure_frame _ _ _ _ _ E) as (Hc & Hf & _).
    unfold store_consistent. rewrite Hc, Hf. exact Hg.
  - destruct Hg as (_ & _ & _ & Hlen). revert E. unfold init.
    destruct (_ <? _); [discriminate |].
    destruct calloc_ok; cbn [negb]; [| discriminate].
    cbn [bundleBytes s_crt_bundle].
    destruct (init_loop _ _ _ _) as [[table cur] |] eqn:El; [| discriminate].
    destruct (cur >? _); [discriminate |].
    intros [= <-]. apply init_loop_length in El.
    pose proof (Z.mod_pos_bound (be16 (idx x 0) (idx x 1)) 65536 ltac:(lia)).
    unfold store_consistent. cbn. repeat split; try congruence; try lia.
    intros t [= <-]. lia.
Qed.

Lemma run_keeps_consistent ops :
  forall g, store_consistent g -> store_consistent (run g ops).
Proof.
  unfold run. induction ops as [| o ops IH]; intros g Hg; cbn [fold_left].
  - exact Hg.
  - apply IH. destruct o; cbn [step attach fst]; try exact Hg.
    now apply init_keeps_consistent.
Qed.

Lemma globals0_consistent : store_consistent globals0.
Proof. unfold store_consistent. cbn. repeat split; congruence || lia. Qed.

(** X4. After any sequence of operations on the zero-initialised statics,
    [shouldVerify()] is true exactly when the table is non-null, the table
    has [num_certs] slots, [num_certs] is below 65536 and
    [x509_crt_bundle_len] is still 0. *)
Theorem reachable_store_consistent (ops : list operation) :
  let g := run globals0 ops in
  (shouldVerify g = true <-> crts (s_crt_bundle g) <> None) /\
  (forall table, crts (s_crt_bundle g) = Some table ->
                 Z.of_nat (length table) = num_certs (s_crt_bundle g)) /\
  0 <= num_certs (s_crt_bundle g) < 65536 /\
  x509_crt_bundle_len (s_crt_bundle g) = 0.
Proof.
  cbv zeta.
  destruct (run_keeps_consistent ops globals0 globals0_consistent)
    as (Hf & Hl & Hn & Hlen).
  repeat split; try assumption; try apply Hn.
  - intros Ht Hc. apply Hf in Hc. unfold shouldVerify in Ht. congruence.
  - intros Hc. unfold shouldVerify.
    destruct (s_should_verify_certs (run globals0 ops)); [reflexivity |].
    exfalso. apply Hc, Hf. reflexivity.
Qed.

Section NotReady.
Context {tls : mbedtls}.

(** X5. As long as [shouldVerify()] is false, whatever loads were
    attempted, the hook refuses every certificate whose masked flags are
    "untrusted", without searching and without any call into mbedTLS. *)
Theorem not_ready_refuses (ops : list operation) (crt : mbedtls_x509_crt)
    (depth flags : Z) :
  shouldVerify (run globals0 ops) = false ->
  flags_filtered flags = MBEDTLS_X509_BADCERT_NOT_TRUSTED ->
  crtVerifyCallback (run globals0 ops) crt depth flags
  = Ok (MBEDTLS_ERR_X509_FATAL_ERROR, flags, []).
Proof.
  intros Hs Hf.
  destruct (run_keeps_consistent ops globals0 globals0_consistent)
    as (Hc & _).
  rewrite crtVerifyCallback_unfold_trusted by exact Hf.
  now rewrite (proj2 Hc Hs).
Qed.

(** X6. A buffer of at least 6 bytes that declares no entry is accepted:
    [shouldVerify()] becomes true with an empty table, and every
    certificate whose masked flags are "untrusted" is then refused. *)
Theorem init_accepts_zero_entries (x : list byte) (g : globals) :
  declared_certs x = 0 ->
  6 <= Z.of_nat (length x) ->
  init true x g = (installed x g, None) /\
  shouldVerify (installed x g) = true /\
  crts (s_crt_bundle (installed x g)) = Some [] /\
  forall crt depth flags,
    flags_filtered flags = MBEDTLS_X509_BADCERT_NOT_TRUSTED ->
    MBEDTLS_ERR_X509_FATAL_ERROR <> 0 ->
    crtVerifyCallback (installed x g) crt depth flags
    = Ok (MBEDTLS_ERR_X509_FATAL_ERROR, flags, []).
Proof.
  intros Hd Hs. rewrite init_unfold. unfold installed. rewrite Hd.
  destruct (Z.ltb_spec (Z.of_nat (length x)) 6); [lia |].
  cbn [Z.to_nat init_loop seq map cursor].
  destruct (Z.gtb_spec BUNDLE_HEADER_OFFSET (Z.of_nat (length x)));
    [unfold BUNDLE_HEADER_OFFSET in *; lia |].
  repeat split.
  intros crt depth flags Hf Hfatal.
  rewrite crtVerifyCallback_unfold_trusted by exact Hf.
  cbn. now rewrite (proj2 (Z.eqb_neq _ _) Hfatal).
Qed.

End NotReady.

Lemma init_allocation_failure_witness :
  init false bundle_A loaded_A = (loaded_A, Some AllocationFailure) /\
  init false [x00; x01; x00] loaded_A = (loaded_A, Some InvalidBundle).
Proof.
  split.
  - apply (proj1 (init_allocation_failure bundle_A loaded_A)).
    cbv. discriminate.
  - apply (proj2 (init_allocation_failure [x00; x01; x00] loaded_A)).
    reflexivity.
Defined.

Lemma init_replaces_store_witness :
  crts (s_crt_bundle (fst (init true bundle_A globals0)))
  = crts (s_crt_bundle
            (fst (init true bundle_A
                    (fst (init true (encode_bundle entries_A_AB) globals0))))).
Proof.
  apply (proj2 (@init_replaces_store toy_mbedtls true bundle_A globals0
                  (fst (init true (encode_bundle entries_A_AB) globals0)))).
  reflexivity.
Defined.

Lemma not_ready_refuses_witness :
  @crtVerifyCallback toy_mbedtls
    (run globals0 [op_init true [x00; x00]; op_init false bundle_A;
                   op_init true bundle_overlong])
    crt_by_A 0 8
  = Ok (-0x3000, 8, []).
Proof.
  apply (@not_ready_refuses toy_mbedtls
           [op_init true [x00; x00]; op_init false bundle_A;
            op_init true bundle_overlong] crt_by_A 0 8);
    reflexivity.
Defined.

Lemma init_accepts_zero_entries_witness :
  init true [x00; x00; x00; x00; x00; x00] globals0
  = (installed [x00; x00; x00; x00; x00; x00] globals0, None).
Proof.
  assert (H : 6 <= Z.of_nat (length [x00; x00; x00; x00; x00; x00]))
    by (cbv; discriminate).
  apply (proj1 (@init_accepts_zero_entries toy_mbedtls
                  [x00; x00; x00; x00; x00; x00] globals0 eq_refl H)).
Defined.

(** ** Loading an encoded bundle *)

(** X7. Parsing reads back what the format holds, in any order of the
    entries: an encodable list with at least one entry loads, the table has
    one slot per entry, and slot [m] designates the name and the key of the
    [m]-th pair. *)
Theorem load_reads_back (es : list (list byte * list byte)) (g0 : globals)
    (m : nat) (name key : list byte) :
  encodable es ->
  nth_error es m = Some (name, key) ->
  let g := fst (init true (encode_bundle es) g0) in
  let table := entry_offsets BUNDLE_HEADER_OFFSET es in
  snd (init true (encode_bundle es) g0) = None /\
  bundleBytes g = encode_bundle es /\
  crts (s_crt_bundle g) = Some table /\
  num_certs (s_crt_bundle g) = Z.of_nat (length es) /\
  length table = length es /\
  entry_name g table (Z.of_nat m) = Ok name /\
  found_key g table (Z.of_nat m) (Z.of_nat (length name)) = Ok key.
Proof.
  intros Henc Hm g table. subst g table.
  assert (Hne : es <> []) by (intros ->; destruct m; discriminate).
  rewrite init_encode_bundle by assumption. cbn [fst snd].
  destruct (probe_encoded es g0 (toy_crt [] [] [] []) m name key Henc Hm)
    as (_ & Hn & Hk).
  repeat split; try assumption. apply entry_offsets_length.
Qed.

Lemma load_reads_back_witness :
  entry_name (fst (init true (encode_bundle entries_A_AB) globals0))
    (entry_offsets BUNDLE_HEADER_OFFSET entries_A_AB) 1 = Ok [x41; x42] /\
  found_key (fst (init true (encode_bundle entries_A_AB) globals0))
    (entry_offsets BUNDLE_HEADER_OFFSET entries_A_AB) 1 2 = Ok [x6c].
Proof.
  assert (He : encodable entries_A_AB)
    by (split; [cbn; lia | repeat constructor; cbn; lia]).
  pose proof (load_reads_back entries_A_AB globals0 1 [x41; x42] [x6c] He
                eq_refl) as H.
  split; [exact (proj1 (proj2 (proj2 (proj2 (proj2 (proj2 H))))))
         | exact (proj2 (proj2 (proj2 (proj2 (proj2 (proj2 H))))))].
Defined.

Lemma init_loop_encoded_junk es :
  forall pre junk e,
    Forall (fun e => Z.of_nat (length (fst e)) < 65536 /\
                     Z.of_nat (length (snd e)) < 65536) es ->
    Z.of_nat (length (pre ++ concat (map encode_entry es))) <= e ->
    init_loop (pre ++ concat (map encode_entry es) ++ junk) e (length es)
      (Z.of_nat (length pre))
    = Some (entry_offsets (Z.of_nat (length pre)) es,
            Z.of_nat (length (pre ++ concat (map encode_entry es)))).
Proof.
  induction es as [| [name key] es IH]; intros pre junk e Hs He.
  - cbn. now rewrite app_nil_r.
  - inversion Hs as [| ? ? [Hn Hk] Hs']; subst. cbn [fst snd] in Hn, Hk.
    cbn [map concat length init_loop entry_offsets fst snd] in *.
    rewrite <- (app_assoc (encode_entry (name, key))).
    destruct (entry_layout pre name key
                (concat (map encode_entry es) ++ junk) Hn Hk)
      as (E1 & E2 & _).
    rewrite E1, E2.
    pose proof (encode_entry_length (name, key)) as L. cbn [fst snd] in L.
    rewrite !length_app in He.
    destruct (Z.gtb_spec (Z.of_nat (length pre) + CRT_HEADER_OFFSET) e)
      as [Hgt | _]; [unfold CRT_HEADER_OFFSET in *; lia |].
    replace (Z.of_nat (length pre) + CRT_HEADER_OFFSET
             + Z.of_nat (length name) + Z.of_nat (length key))
      with (Z.of_nat (length (pre ++ encode_entry (name, key))))
      by (rewrite length_app; lia).
    rewrite (app_assoc pre (encode_entry (name, key))).
    rewrite (IH (pre ++ encode_entry (name, key)) junk e Hs').
    + now rewrite <- !app_assoc.
    + rewrite !length_app. lia.
Qed.

(** X8. Bytes after the last declared entry are not an error: an encoded
    bundle with at least one entry, followed by anything, is accepted, with
    the table of the bundle alone. *)
Theorem init_accepts_trailing_bytes (es : list (list byte * list byte))
    (junk : list byte) (g : globals) :
  encodable es -> es <> [] ->
  init true (encode_bundle es ++ junk) g
  = ({| bundleBytes := encode_bundle es ++ junk;
        s_should_verify_certs := true;
        s_crt_bundle :=
          {| crts := Some (entry_offsets BUNDLE_HEADER_OFFSET es);
             num_certs := Z.of_nat (length es);
             x509_crt_bundle_len := x509_crt_bundle_len (s_crt_bundle g) |} |},
     None).
Proof.
  intros [Hn Hs] Hne. unfold init.
  assert (Hlen : 6 <= Z.of_nat (length (encode_bundle es))).
  { destruct es as [| e es]; [congruence |].
    unfold encode_bundle, enc16. cbn [map concat app length].
    rewrite !length_app. pose proof (encode_entry_length e).
    unfold CRT_HEADER_OFFSET in *. lia. }
  destruct (Z.ltb_spec (Z.of_nat (length (encode_bundle es ++ junk)))
              (BUNDLE_HEADER_OFFSET + CRT_HEADER_OFFSET)) as [Hlt | _].
  { rewrite length_app in Hlt.
    unfold BUNDLE_HEADER_OFFSET, CRT_HEADER_OFFSET in Hlt. lia. }
  assert (Ed : be16 (idx (encode_bundle es ++ junk) 0)
                 (idx (encode_bundle es ++ junk) 1) mod 65536
               = Z.of_nat (length es)).
  { unfold encode_bundle, enc16. cbn [app].
    change (idx (?a :: _) 0) with a. change (idx (_ :: ?b :: _) 1) with b.
    rewrite (be16_enc16 (Z.of_nat (length es)) _ _ ltac:(lia) eq_refl).
    apply Z.mod_small. lia. }
  rewrite Ed, Nat2Z.id. cbn [negb bundleBytes s_crt_bundle].
  pose proof (init_loop_encoded_junk es (enc16 (Z.of_nat (length es))) junk
                (Z.of_nat (length (encode_bundle es ++ junk))) Hs) as Hl.
  fold (encode_bundle es) in Hl.
  change (Z.of_nat (length (enc16 (Z.of_nat (length es)))))
    with BUNDLE_HEADER_OFFSET in Hl.
  unfold encode_bundle at 1. rewrite <- app_assoc.
  rewrite Hl by (rewrite length_app; lia).
  destruct (Z.gtb_spec (Z.of_nat (length (encode_bundle es)))
              (Z.of_nat (length (encode_bundle es ++ junk)))) as [Hgt | _].
  { rewrite length_app in Hgt. lia. }
  unfold encode_bundle. now rewrite <- !app_assoc.
Qed.

Lemma init_accepts_trailing_bytes_witness :
  snd (init true (encode_bundle entries_A ++ [xff; xff; xff]) globals0) = None.
Proof.
  assert (He : encodable entries_A)
    by (split; [cbn; lia | repeat constructor; cbn; lia]).
  rewrite (init_accepts_trailing_bytes entries_A [xff; xff; xff] globals0 He
             ltac:(discriminate)).
  reflexivity.
Defined.

(** ** The hook on a loaded store *)

Section LoadedStore.
Context {tls : mbedtls}.

Lemma crtVerifyCallback_verdict g crt depth flags ret fl calls :
  crtVerifyCallback g crt depth flags = Ok (ret, fl, calls) ->
  (ret = 0 \/ ret = MBEDTLS_ERR_X509_FATAL_ERROR) /\
  (fl = flags \/ (fl = 0 /\ ret = 0)).
Proof.
  unfold crtVerifyCallback.
  destruct (negb _); [intros [= <- <- _]; auto |].
  destruct (crts (s_crt_bundle g)) as [table |]; [| intros [= <- <- _]; auto].
  destruct (find_crt g table crt) as [[[found middle] nl] |]; [| discriminate].
  cbn [bind]. destruct found.
  - destruct (found_key g table middle nl) as [key |]; [| discriminate].
    cbn [bind]. destruct (crtCheckCertificate crt key) as [r c].
    destruct (r =? 0); intros [= <- <- _]; auto.
  - cbn [bind]. destruct (_ =? 0); intros [= <- <- _]; auto.
Qed.

(** X9. After an accepted load, from whatever store, the hook always
    returns: its reads stay inside the bundle, and inside the issuer's
    memory as long as that memory is at least as long as every stored name.
    What it returns is 0 or the fatal error, and the flags are left as they
    were or, together with a return of 0, cleared. *)
Theorem hook_returns_on_loaded_store (calloc_ok : bool) (x : list byte)
    (g0 g : globals) (child : mbedtls_x509_crt) (depth flags : Z) :
  init calloc_ok x g0 = (g, None) ->
  (forall table m name,
     crts (s_crt_bundle g) = Some table ->
     entry_name g table m = Ok name ->
     (length name <= length (p (issuer_raw child)))%nat) ->
  exists ret fl calls,
    crtVerifyCallback g child depth flags = Ok (ret, fl, calls) /\
    (ret = 0 \/ ret = MBEDTLS_ERR_X509_FATAL_ERROR) /\
    (fl = flags \/ (fl = 0 /\ ret = 0)).
Proof.
  intros Hinit Hmem.
  destruct (crtVerifyCallback_defined _ _ _ _ child depth flags Hinit Hmem)
    as (ret & fl & calls & E).
  exists ret, fl, calls. split; [exact E |].
  eapply crtVerifyCallback_verdict, E.
Qed.

End LoadedStore.

Lemma hook_returns_on_loaded_store_witness :
  exists ret fl calls,
    @crtVerifyCallback toy_mbedtls loaded_A crt_by_Z 0 8 = Ok (ret, fl, calls) /\
    (ret = 0 \/ ret = -0x3000) /\ (fl = 8 \/ (fl = 0 /\ ret = 0)).
Proof.
  apply (@hook_returns_on_loaded_store toy_mbedtls true bundle_A globals0
           loaded_A crt_by_Z 0 8 eq_refl).
  intros table m name [= <-] H. unfold entry_name, table_at in H.
  destruct (m <? 0); [discriminate H |].
  destruct (Z.to_nat m) as [| k].
  - vm_compute in H. injection H as <-. cbn. lia.
  - destruct k; discriminate H.
Defined.

(** ** What the search can and cannot find *)

Lemma search_loop_sound g table child fuel :
  forall start end_ middle name_len m nl,
    0 <= start ->
    (start <= end_ -> start <= middle <= end_) ->
    search_loop g table child fuel start end_ middle name_len
    = Ok (true, m, nl) ->
    start <= m <= end_ /\ compare_candidate g table child m = Ok (nl, 0).
Proof.
  induction fuel as [| fuel IH];
    intros start end_ middle name_len m nl H0 Hm;
    cbn [search_loop]; destruct (Z.leb_spec start end_) as [Hle | Hgt];
    try discriminate.
  specialize (Hm Hle).
  destruct (compare_candidate g table child middle) as [[nl' c] |] eqn:E;
    [| discriminate].
  cbn [bind]. destruct (Z.eqb_spec c 0) as [-> | Hc].
  { intros [= <- <-]. auto. }
  destruct (c <? 0); intros Hs.
  - apply IH in Hs; [| lia | intros; apply quot_mid; lia].
    destruct Hs. split; [lia | assumption].
  - apply IH in Hs; [| lia | intros; apply quot_mid; lia].
    destruct Hs. split; [lia | assumption].
Qed.

(** X10. A match is always a real one, sorted bundle or not: when the
    search on a loaded store reports an entry, that slot is one of the
    [num_certs] slots, the length it reports is the length of the name
    stored there, that name is a prefix of the issuer's memory, and the
    key of that slot lies inside the bundle. *)
Theorem find_crt_sound (calloc_ok : bool) (x : list byte) (g0 g : globals)
    (table : list Z) (child : mbedtls_x509_crt) (m nl : Z) :
  init calloc_ok x g0 = (g, None) ->
  crts (s_crt_bundle g) = Some table ->
  find_crt g table child = Ok (true, m, nl) ->
  0 <= m < num_certs (s_crt_bundle g) /\
  exists name key,
    entry_name g table m = Ok name /\
    nl = Z.of_nat (length name) /\
    is_prefix name (p (issuer_raw child)) /\
    found_key g table m nl = Ok key.
Proof.
  intros Hinit Hcrts Hfind. unfold find_crt in Hfind.
  apply search_loop_sound in Hfind; [| lia |].
  2: { intros. rewrite Z.sub_0_r. apply (quot_mid 0); lia. }
  destruct Hfind as [Hm Hc]. split; [lia |].
  destruct (loaded_entry_defined _ _ _ _ table m Hinit Hcrts ltac:(lia))
    as (name & key & Hn & Hk & _).
  exists name, key. pose proof Hn as Hn0.
  unfold compare_candidate in Hc. unfold entry_name in Hn.
  destruct (table_at table m) as [q |]; [| discriminate].
  cbn [bind] in *.
  destruct (load_be16 (bundleBytes g) q) as [nl' |]; [| discriminate].
  cbn [bind] in *.
  destruct (slice_inv _ _ _ _ Hn) as (Hlen & t & Hmem). rewrite Hmem in Hc.
  destruct (memcmp (p (issuer_raw child)) (name ++ t) (Z.to_nat nl'))
    as [c |] eqn:Ecmp; [| discriminate].
  cbn [bind] in Hc. injection Hc as <- ->.
  rewrite <- Hlen, Nat2Z.id in Ecmp. apply memcmp_zero_prefix in Ecmp.
  rewrite Hlen in Hk. repeat split; try assumption. now symmetry.
Qed.

Lemma find_crt_sound_witness :
  0 <= 0 < num_certs (s_crt_bundle loaded_A) /\
  exists name key,
    entry_name loaded_A [2] 0 = Ok name /\
    1 = Z.of_nat (length name) /\
    is_prefix name (p (issuer_raw crt_by_AB)) /\
    found_key loaded_A [2] 0 1 = Ok key.
Proof.
  apply (find_crt_sound true bundle_A globals0 loaded_A [2] crt_by_AB 0 1);
    reflexivity.
Defined.

Section Unrelated.
Context {tls : mbedtls}.

(** X11. Whatever the order of the entries, an issuer that neither starts
    with a stored name nor is the start of one is not found, and the hook
    refuses it without calling mbedTLS. *)
Theorem lookup_unrelated_not_found (es : list (list byte * list byte))
    (g0 : globals) (child : mbedtls_x509_crt) :
  encodable es -> es <> [] ->
  (forall n, In n (names es) ->
     ~ is_prefix n (buf_bytes (issuer_raw child)) /\
     ~ is_prefix (buf_bytes (issuer_raw child)) n) ->
  let g := fst (init true (encode_bundle es) g0) in
  let table := entry_offsets BUNDLE_HEADER_OFFSET es in
  (exists m nl, find_crt g table child = Ok (false, m, nl)) /\
  (forall depth flags,
     flags_filtered flags = MBEDTLS_X509_BADCERT_NOT_TRUSTED ->
     MBEDTLS_ERR_X509_FATAL_ERROR <> 0 ->
     crtVerifyCallback g child depth flags
     = Ok (MBEDTLS_ERR_X509_FATAL_ERROR, flags, [])).
Proof.
  intros Henc Hne Hun g table. subst g table.
  rewrite init_encode_bundle by assumption. cbn [fst].
  assert (Hfind : exists m nl,
             find_crt (bundle_state es g0)
               (entry_offsets BUNDLE_HEADER_OFFSET es) child
             = Ok (false, m, nl)).
  { rewrite find_crt_bundle_state.
    apply search_loop_not_found; [lia | | lia |].
    { intros. rewrite Z.sub_0_r. apply (quot_mid 0); lia. }
    intros i Hi.
    destruct (nth_error es (Z.to_nat i)) as [[n k] |] eqn:Ei.
    2: { apply nth_error_None in Ei. lia. }
    destruct (probe_encoded es g0 child _ _ _ Henc Ei) as ((post & Ec) & _).
    rewrite Z2Nat.id in Ec by lia. rewrite Ec.
    assert (Hn : In n (names es)).
    { unfold names. apply in_map_iff. exists (n, k).
      split; [reflexivity | eapply nth_error_In, Ei]. }
    destruct (Hun n Hn) as [U1 U2].
    destruct (issuer_memory child) as [rest ->].
    destruct (memcmp_lex _ n rest post U2 U1) as (c & -> & Hc & _).
    cbn [bind]. eauto. }
  split; [exact Hfind |].
  intros depth flags Hf Hfatal. destruct Hfind as (m & nl & Hfind).
  rewrite crtVerifyCallback_unfold_trusted by exact Hf.
  cbn [bundle_state s_crt_bundle crts]. rewrite Hfind. cbn [bind].
  now rewrite (proj2 (Z.eqb_neq _ _) Hfatal).
Qed.

End Unrelated.

Lemma lookup_unrelated_not_found_witness :
  exists m nl,
    find_crt (fst (init true (encode_bundle entries_A_AB) globals0))
      (entry_offsets BUNDLE_HEADER_OFFSET entries_A_AB) crt_by_B
    = Ok (false, m, nl).
Proof.
  assert (He : encodable entries_A_AB)
    by (split; [cbn; lia | repeat constructor; cbn; lia]).
  refine (proj1 (@lookup_unrelated_not_found toy_mbedtls entries_A_AB globals0
                   crt_by_B He ltac:(discriminate) _)).
  intros n Hn. cbn in Hn.
  destruct Hn as [<- | [<- | []]]; split; intros [t E]; discriminate E.
Defined.

(** ** Truncated bundles *)

Lemma idx_firstn k l i :
  0 <= i < Z.of_nat k -> idx (firstn k l) i = idx l i.
Proof.
  intros Hi. unfold idx. rewrite nth_firstn.
  destruct (Nat.ltb_spec (Z.to_nat i) k); [reflexivity | lia].
Qed.

(** On a truncated buffer the walk either stops at a header that no longer
    fits or ends where the full bundle ends, past the truncation. *)
Lemma init_loop_truncated es :
  forall pre k,
    Forall (fun e => Z.of_nat (length (fst e)) < 65536 /\
                     Z.of_nat (length (snd e)) < 65536) es ->
    (length pre <= k)%nat ->
    (k < length (pre ++ concat (map encode_entry es)))%nat ->
    match init_loop (firstn k (pre ++ concat (map encode_entry es)))
            (Z.of_nat k) (length es) (Z.of_nat (length pre)) with
    | None => True
    | Some (_, last) =>
        last = Z.of_nat (length (pre ++ concat (map encode_entry es)))
    end.
Proof.
  induction es as [| [name key] es IH]; intros pre k Hs Hpre Hk.
  - cbn in Hk. rewrite app_nil_r in Hk. lia.
  - inversion Hs as [| ? ? [Hn Hkey] Hs']; subst. cbn [fst snd] in Hn, Hkey.
    cbn [map concat length init_loop]. cbn [map concat] in Hk.
    destruct (Z.gtb_spec (Z.of_nat (length pre) + CRT_HEADER_OFFSET)
                (Z.of_nat k)) as [| Hfit]; [exact I |].
    unfold CRT_HEADER_OFFSET in Hfit.
    rewrite !idx_firstn by lia.
    destruct (entry_layout pre name key (concat (map encode_entry es)) Hn Hkey)
      as (E1 & E2 & _).
    rewrite E1, E2.
    pose proof (encode_entry_length (name, key)) as L. cbn [fst snd] in L.
    replace (Z.of_nat (length pre) + CRT_HEADER_OFFSET
             + Z.of_nat (length name) + Z.of_nat (length key))
      with (Z.of_nat (length (pre ++ encode_entry (name, key))))
      by (rewrite length_app; lia).
    destruct (le_lt_dec (length (pre ++ encode_entry (name, key))) k)
      as [Hin | Hout].
    + rewrite app_assoc in *.
      specialize (IH (pre ++ encode_entry (name, key)) k Hs' Hin Hk).
      destruct (init_loop _ _ _ _) as [[rest last] |]; [exact IH | exact I].
    + destruct es as [| e2 es]; cbn [length init_loop map concat].
      * now rewrite app_nil_r.
      * destruct (Z.gtb_spec
                    (Z.of_nat (length (pre ++ encode_entry (name, key)))
                     + CRT_HEADER_OFFSET) (Z.of_nat k));
          [exact I | unfold CRT_HEADER_OFFSET in *; lia].
Qed.

(** X12. Every proper truncation of an encoded bundle is rejected: cut
    anywhere before its last byte, the buffer makes [init] throw, and with
    the table allocated the error is "Invalid certificate bundle". *)
Theorem init_rejects_truncation (es : list (list byte * list byte))
    (k : nat) (g : globals) :
  encodable es ->
  (k < length (encode_bundle es))%nat ->
  snd (init true (firstn k (encode_bundle es)) g) = Some InvalidBundle /\
  forall calloc_ok,
    snd (init calloc_ok (firstn k (encode_bundle es)) g) <> None.
Proof.
  intros [HN Hs] Hk.
  assert (Hlen : length (firstn k (encode_bundle es)) = k)
    by (apply firstn_length_le; lia).
  assert (Htrue : snd (init true (firstn k (encode_bundle es)) g)
                  = Some InvalidBundle).
  { unfold init. rewrite Hlen.
    change (BUNDLE_HEADER_OFFSET + CRT_HEADER_OFFSET) with 6.
    destruct (Z.ltb_spec (Z.of_nat k) 6) as [| H6]; [reflexivity |].
    cbn [negb bundleBytes s_crt_bundle].
    rewrite !idx_firstn by lia.
    assert (Ed : be16 (idx (encode_bundle es) 0) (idx (encode_bundle es) 1)
                 mod 65536 = Z.of_nat (length es)).
    { unfold encode_bundle, enc16. cbn [app].
      change (idx (?a :: _) 0) with a. change (idx (_ :: ?b :: _) 1) with b.
      rewrite (be16_enc16 (Z.of_nat (length es)) _ _ ltac:(lia) eq_refl).
      apply Z.mod_small. lia. }
    rewrite Ed, Nat2Z.id.
    pose proof (init_loop_truncated es (enc16 (Z.of_nat (length es))) k Hs)
      as Ht.
    fold (encode_bundle es) in Ht.
    change (Z.of_nat (length (enc16 (Z.of_nat (length es)))))
      with BUNDLE_HEADER_OFFSET in Ht.
    specialize (Ht ltac:(cbn; lia) Hk).
    destruct (init_loop _ _ _ _) as [[table last] |]; [| reflexivity].
    subst last.
    destruct (Z.gtb_spec (Z.of_nat (length (encode_bundle es))) (Z.of_nat k));
      [reflexivity | lia]. }
  split; [exact Htrue |].
  intros [|]; [rewrite Htrue; discriminate |].
  unfold init. destruct (_ <? _); discriminate.
Qed.

Lemma init_rejects_truncation_witness :
  snd (init true (firstn 14 (encode_bundle entries_A_AB)) globals0)
  = Some InvalidBundle.
Proof.
  assert (He : encodable entries_A_AB)
    by (split; [cbn; lia | repeat constructor; cbn; lia]).
  assert (Hk : (14 < length (encode_bundle entries_A_AB))%nat)
    by (cbn; lia).
  exact (proj1 (init_rejects_truncation entries_A_AB 14 globals0 He Hk)).
Defined.

(** * CentralAudioBuffer *)

Section CentralAudioBufferProperties.
Context {cb : circular_buffer}.

Lemma buffer_step_keeps_pairing this c :
  accessMutex this = isLocked this ->
  exists this',
    buffer_step this c = inr this' /\
    accessMutex this' = isLocked this'.
Proof.
  intros H. destruct c as [f r | | | |]; cbn [buffer_step].
  - unfold configureOutput. destruct (negb _); eauto.
  - eauto.
  - unfold clearBuffer. eauto.
  - unfold lockAccess, clearBuffer. cbn [isLocked accessMutex].
    destruct (isLocked this) eqn:E; cbn [negb]; [eauto |].
    rewrite H. eauto.
  - unfold unlockAccess, clearBuffer. cbn [isLocked accessMutex].
    destruct (isLocked this) eqn:E; [| eauto].
    rewrite H. eauto.
Qed.

(** X13. In any sequence of calls on a freshly constructed buffer the
    mutex is never locked while held nor unlocked while free, and after
    every call it is held exactly when [isLocked] is set. *)
Theorem buffer_calls_never_misuse_mutex (size : Z) (cs : list buffer_call) :
  exists this,
    buffer_run (CentralAudioBuffer_new size) cs = inr this /\
    accessMutex this = isLocked this.
Proof.
  assert (H : forall s, accessMutex s = isLocked s ->
                exists this, buffer_run s cs = inr this /\
                             accessMutex this = isLocked this).
  { induction cs as [| c cs IH]; intros s Hs; cbn [buffer_run]; [eauto |].
    destruct (buffer_step_keeps_pairing s c Hs) as (s' & -> & Hs'). eauto. }
  apply H. reflexivity.
Qed.

(** X14. [getSampleRate()] returns the rate of the last [configureOutput]
    call, 0 before the first one; locking, unlocking and clearing never
    change it. *)
Theorem getSampleRate_last_configured (size : Z) (cs : list buffer_call)
    (this : CentralAudioBuffer) :
  buffer_run (CentralAudioBuffer_new size) cs = inr this ->
  getSampleRate this = last_configured 0 cs.
Proof.
  assert (H : forall s, buffer_run s cs = inr this ->
                getSampleRate this = last_configured (sampleRate s) cs).
  { induction cs as [| c cs IH]; intros s; cbn [buffer_run last_configured].
    - now intros [= <-].
    - destruct c as [f r | | | |]; cbn [buffer_step].
      + intros Hr. rewrite (IH _ Hr). unfold configureOutput.
        destruct (Z.eqb_spec (sampleRate s) r) as [E | N];
          cbn [negb sampleRate]; congruence.
      + apply IH.
      + intros Hr. now rewrite (IH _ Hr).
      + unfold lockAccess, clearBuffer. cbn [isLocked accessMutex sampleRate].
        destruct (isLocked s); cbn [negb]; [apply IH |].
        destruct (accessMutex s); [discriminate |].
        intros Hr. now rewrite (IH _ Hr).
      + unfold unlockAccess, clearBuffer. cbn [isLocked accessMutex sampleRate].
        destruct (isLocked s); [| apply IH].
        destruct (accessMutex s); [| discriminate].
        intros Hr. now rewrite (IH _ Hr). }
  intros Hr. now rewrite (H _ Hr).
Qed.

End CentralAudioBufferProperties.

Lemma getSampleRate_last_configured_witness :
  @getSampleRate level_buffer
    (@Build_CentralAudioBuffer level_buffer 0 false 48000 false)
  = 48000.
Proof.
  apply (@getSampleRate_last_configured level_buffer 1024
           [call_configureOutput 16 44100; call_lockAccess;
            call_configureOutput 16 48000; call_clearBuffer;
            call_unlockAccess]).
  reflexivity.
Defined.
